(** * django-i18nfield: the localized string type and its storage form

    A shallow embedding of [i18nfield/strings.py] ([LazyI18nString] and its
    [LazyGettextProxy]), of [I18nField.to_python] and
    [I18nField.get_prep_value] from [i18nfield/fields.py], and of
    [I18nWidget.decompress] and [I18nFormField.compress] from
    [i18nfield/forms.py], with the properties of construction, locale
    resolution, truthiness, equality, ordering, serialization, the scoped
    locale override and the form round trip.

    Python strings are modelled as [string] (the UTF-8 bytes of the text:
    splitting at the ASCII hyphen, prefix tests and lexicographic order agree
    with the code-point operations of Python).  Dictionaries are association
    lists in insertion order, whose keys are strings. *)

From Stdlib Require Import List String Ascii ZArith Bool Arith Lia.
From Stdlib Require Import Permutation Sorted DecimalString OrderedTypeEx.
Import ListNotations.

Set Warnings "-register-all".

Local Open Scope string_scope.
Local Open Scope list_scope.

(** ** Python values and exceptions *)

Inductive exn : Type :=
| ValueError
| TypeError
| AttributeError
| KeyError
| RecursionError.

Inductive pyresult (A : Type) : Type :=
| Ok (a : A)
| Raise (e : exn).

Arguments Ok {A} a.
Arguments Raise {A} e.

(** The values the JSON data model produces, without floats: [None], [bool],
    [int], [str], [list], and [dict] with string keys. *)
Inductive pyval : Type :=
| PNone
| PBool (b : bool)
| PInt (n : Z)
| PStr (s : string)
| PList (xs : list pyval)
| PDict (items : list (string * pyval)).

Definition dict : Type := list (string * pyval).

(** [bool(v)] *)
Definition truthy (v : pyval) : bool :=
  match v with
  | PNone => false
  | PBool b => b
  | PInt n => negb (n =? 0)%Z
  | PStr s => negb (s =? "")
  | PList xs => match xs with [] => false | _ :: _ => true end
  | PDict items => match items with [] => false | _ :: _ => true end
  end.

(** ** Strings: [str.split] on a one-character separator, [str.startswith] *)

Fixpoint str_split (sep : ascii) (s : string) : list string :=
  match s with
  | EmptyString => [EmptyString]
  | String c rest =>
      if Ascii.eqb c sep then EmptyString :: str_split sep rest
      else match str_split sep rest with
           | piece :: pieces => String c piece :: pieces
           | [] => [String c EmptyString]
           end
  end.

Fixpoint startswith (s p : string) {struct p} : bool :=
  match p with
  | EmptyString => true
  | String c p' =>
      match s with
      | EmptyString => false
      | String d s' => Ascii.eqb d c && startswith s' p'
      end
  end.

Definition hyphen : ascii := "-"%char.

(** ** Dictionaries *)

Fixpoint dict_lookup (d : dict) (k : string) : option pyval :=
  match d with
  | [] => None
  | (k', v) :: rest => if k' =? k then Some v else dict_lookup rest k
  end.

(** [d.get(k)]: [None] when the key is absent *)
Definition dict_get (d : dict) (k : string) : pyval :=
  match dict_lookup d k with
  | Some v => v
  | None => PNone
  end.

(** [d[k]] *)
Definition dict_getitem (d : dict) (k : string) : pyresult pyval :=
  match dict_lookup d k with
  | Some v => Ok v
  | None => Raise KeyError
  end.

(** [d[k] = v]: an existing key keeps its position, a new key goes last *)
Fixpoint dict_setitem (d : dict) (k : string) (v : pyval) : dict :=
  match d with
  | [] => [(k, v)]
  | (k', v') :: rest =>
      if k' =? k then (k', v) :: rest else (k', v') :: dict_setitem rest k v
  end.

Definition dict_keys (d : dict) : list string := map fst d.
Definition dict_values (d : dict) : list pyval := map snd d.

(** A list of pairs is a dictionary when no key occurs twice, at every depth. *)
Fixpoint wf_val (v : pyval) : Prop :=
  match v with
  | PList xs =>
      (fix all (l : list pyval) : Prop :=
         match l with
         | [] => True
         | x :: l' => wf_val x /\ all l'
         end) xs
  | PDict items =>
      NoDup (map fst items) /\
      (fix all (l : list (string * pyval)) : Prop :=
         match l with
         | [] => True
         | (_, x) :: l' => wf_val x /\ all l'
         end) items
  | _ => True
  end.

Definition wf_dict (d : dict) : Prop := wf_val (PDict d).

(** [a == b] on values: [bool] compares as the integer it is, lists compare
    element by element, dictionaries as key-value sets. *)
Fixpoint py_eq (a b : pyval) {struct a} : bool :=
  match a, b with
  | PNone, PNone => true
  | PBool x, PBool y => Bool.eqb x y
  | PBool x, PInt n => (Z.b2z x =? n)%Z
  | PInt m, PBool y => (m =? Z.b2z y)%Z
  | PInt m, PInt n => (m =? n)%Z
  | PStr s, PStr t => s =? t
  | PList xs, PList ys =>
      (fix list_eq (l1 l2 : list pyval) {struct l1} : bool :=
         match l1, l2 with
         | [], [] => true
         | x :: l1', y :: l2' => py_eq x y && list_eq l1' l2'
         | _, _ => false
         end) xs ys
  | PDict d1, PDict d2 =>
      (List.length d1 =? List.length d2)%nat &&
      (fix sub (l : list (string * pyval)) : bool :=
         match l with
         | [] => true
         | (k, v) :: l' =>
             match dict_lookup d2 k with
             | Some w => py_eq v w
             | None => false
             end && sub l'
         end) d1
  | _, _ => false
  end.

(** Induction over values, with the hypothesis for every element of a list
    and every value of a dictionary. *)
Section PyvalInduction.

Variable P : pyval -> Prop.
Hypothesis case_None : P PNone.
Hypothesis case_Bool : forall b, P (PBool b).
Hypothesis case_Int : forall n, P (PInt n).
Hypothesis case_Str : forall s, P (PStr s).
Hypothesis case_List : forall xs, Forall P xs -> P (PList xs).
Hypothesis case_Dict : forall items, Forall (fun kv => P (snd kv)) items -> P (PDict items).

Fixpoint pyval_induction (v : pyval) : P v :=
  match v with
  | PNone => case_None
  | PBool b => case_Bool b
  | PInt n => case_Int n
  | PStr s => case_Str s
  | PList xs =>
      case_List xs
        ((fix each (l : list pyval) : Forall P l :=
            match l with
            | [] => Forall_nil P
            | x :: l' => Forall_cons x (pyval_induction x) (each l')
            end) xs)
  | PDict items =>
      case_Dict items
        ((fix each (l : list (string * pyval)) : Forall (fun kv => P (snd kv)) l :=
            match l with
            | [] => Forall_nil _
            | kv :: l' => Forall_cons kv (pyval_induction (snd kv)) (each l')
            end) items)
  end.

End PyvalInduction.

(** ** [collections.UserDict]

    [UserDict.__init__(dict)] starts from [{}] and, unless the argument is
    [None], calls [update], which copies a mapping key by key and otherwise
    iterates the argument as a sequence of key-value pairs.  The result is
    [None] where the outcome lies outside the modelled values (a key that is
    not a string, or a pair given as a non-ASCII string). *)

Definition is_ascii (s : string) : bool :=
  forallb (fun c => (nat_of_ascii c <? 128)%nat) (list_ascii_of_string s).

(** [key, value = e] *)
Definition unpack_pair (e : pyval) : option (pyresult (pyval * pyval)) :=
  match e with
  | PNone | PBool _ | PInt _ => Some (Raise TypeError)
  | PStr s =>
      match s with
      | EmptyString => Some (Raise ValueError)
      | String _ EmptyString => Some (Raise ValueError)
      | String c1 (String c2 rest) =>
          if is_ascii s then
            match rest with
            | EmptyString =>
                Some (Ok (PStr (String c1 EmptyString), PStr (String c2 EmptyString)))
            | String _ _ => Some (Raise ValueError)
            end
          else None
      end
  | PList [k; v] => Some (Ok (k, v))
  | PList _ => Some (Raise ValueError)
  | PDict [(k1, _); (k2, _)] => Some (Ok (PStr k1, PStr k2))
  | PDict _ => Some (Raise ValueError)
  end.

Fixpoint update_pairs (d : dict) (es : list pyval) : option (pyresult dict) :=
  match es with
  | [] => Some (Ok d)
  | e :: es' =>
      match unpack_pair e with
      | None => None
      | Some (Raise x) => Some (Raise x)
      | Some (Ok (PStr k, v)) => update_pairs (dict_setitem d k v) es'
      | Some (Ok (PList _, _)) | Some (Ok (PDict _, _)) => Some (Raise TypeError)
      | Some (Ok (_, _)) => None
      end
  end.

Definition update_mapping (d : dict) (other : dict) : dict :=
  fold_left (fun acc k => dict_setitem acc k (dict_get other k)) (dict_keys other) d.

Definition UserDict_update (d : dict) (other : pyval) : option (pyresult dict) :=
  match other with
  | PDict items => Some (Ok (update_mapping d items))
  | PNone | PBool _ | PInt _ => Some (Raise TypeError)
  | PStr EmptyString => Some (Ok d)
  | PStr (String _ _) => Some (Raise ValueError)
  | PList es => update_pairs d es
  end.

Definition UserDict_init (dict_data : pyval) : option (pyresult dict) :=
  match dict_data with
  | PNone => Some (Ok [])
  | _ => UserDict_update [] dict_data
  end.

(** ** [django.utils.translation]: the active locale

    The thread's active locale is modelled by what [get_language()] reports:
    a language code, or [None] after [deactivate_all()].  Code that reads or
    changes it runs in a state monad that also carries exceptions. *)

Module Translation.

Definition lang : Type := option string.

Definition M (A : Type) : Type := lang -> pyresult A * lang.

Definition ret {A : Type} (a : A) : M A := fun st => (Ok a, st).

Definition bind {A B : Type} (m : M A) (f : A -> M B) : M B :=
  fun st =>
    match m st with
    | (Ok a, st') => f a st'
    | (Raise e, st') => (Raise e, st')
    end.

Definition get_language : M lang := fun st => (Ok st, st).
Definition activate (language : string) : M unit := fun _ => (Ok tt, Some language).
Definition deactivate_all : M unit := fun _ => (Ok tt, None).

(** [override.__enter__]: remember the active locale, then switch. *)
Definition override_enter (language : lang) : M lang :=
  bind get_language (fun old_language =>
  bind (match language with
        | Some l => activate l
        | None => deactivate_all
        end) (fun _ =>
  ret old_language)).

(** [override.__exit__] (with [deactivate=False]): switch back. *)
Definition override_exit (old_language : lang) : M unit :=
  match old_language with
  | None => deactivate_all
  | Some l => activate l
  end.

(** [with override(language): body]: [__exit__] runs when the body returns
    and when it raises; it returns [None], so an exception of the body
    propagates after it. *)
Definition with_override {A : Type} (language : lang) (body : M A) : M A :=
  fun st =>
    match override_enter language st with
    | (Raise e, st1) => (Raise e, st1)
    | (Ok old_language, st1) =>
        let (r, st2) := body st1 in
        match override_exit old_language st2 with
        | (Ok _, st3) => (r, st3)
        | (Raise e, st3) => (Raise e, st3)
        end
    end.

End Translation.

Notation "x <- m ;; k" := (Translation.bind m (fun x => k))
  (at level 61, m at next level, right associativity).

(** ** [json.dumps]

    The encoder with its default separators ([", "] and [": "]).  With
    [sort_keys] the members of every object are written in the order of their
    keys.  The quoting of a string ([json.encoder.encode_basestring_ascii])
    is a parameter. *)

Module Json.

Fixpoint insert_item {A : Type} (x : string * A) (l : list (string * A))
  : list (string * A) :=
  match l with
  | [] => [x]
  | y :: l' =>
      if (fst x <=? fst y)%string then x :: l else y :: insert_item x l'
  end.

(** [sorted(items)] for items with pairwise different keys *)
Fixpoint sort_items {A : Type} (l : list (string * A)) : list (string * A) :=
  match l with
  | [] => []
  | x :: l' => insert_item x (sort_items l')
  end.

Fixpoint join (sep : string) (pieces : list string) : string :=
  match pieces with
  | [] => EmptyString
  | [p] => p
  | p :: rest => (p ++ sep ++ join sep rest)%string
  end.

Definition int_repr (n : Z) : string := NilZero.string_of_int (Z.to_int n).

(** The value with the members of every object in the order of their keys:
    what [sort_keys=True] writes. *)
Fixpoint sort_keys (v : pyval) : pyval :=
  match v with
  | PList xs =>
      PList
        ((fix each (l : list pyval) : list pyval :=
            match l with
            | [] => []
            | x :: l' => sort_keys x :: each l'
            end) xs)
  | PDict items =>
      PDict
        (sort_items
           ((fix each (l : list (string * pyval)) : list (string * pyval) :=
               match l with
               | [] => []
               | (k, x) :: l' => (k, sort_keys x) :: each l'
               end) items))
  | _ => v
  end.

Section Encoder.

Variable encode_basestring_ascii : string -> string.

(** The text of an object whose members are given as key and value text. *)
Definition json_object (members : list (string * string)) : string :=
  ("{" ++ join ", " (map (fun m => encode_basestring_ascii (fst m) ++ ": " ++ snd m) members)
       ++ "}")%string.

Definition json_array (elements : list string) : string :=
  ("[" ++ join ", " elements ++ "]")%string.

Fixpoint dumps (sort_keys : bool) (v : pyval) : string :=
  match v with
  | PNone => "null"
  | PBool true => "true"
  | PBool false => "false"
  | PInt n => int_repr n
  | PStr s => encode_basestring_ascii s
  | PList xs =>
      json_array
        ((fix each (l : list pyval) : list string :=
            match l with
            | [] => []
            | x :: l' => dumps sort_keys x :: each l'
            end) xs)
  | PDict items =>
      let members :=
        (fix each (l : list (string * pyval)) : list (string * string) :=
           match l with
           | [] => []
           | (k, x) :: l' => (k, dumps sort_keys x) :: each l'
           end) items in
      json_object (if sort_keys then sort_items members else members)
  end.

End Encoder.

End Json.

(** ** [i18nfield/strings.py] *)

Module LazyGettextProxy.

(** A proxy object: its identity and the message it wraps. *)
Record t : Type := { oid : nat; lazygettext : string }.

Section Gettext.

(** [str(gettext(message))] under the given active locale. *)
Variable gettext : Translation.lang -> string -> pyresult string.

Definition render (self : t) : Translation.M string :=
  fun st => (gettext st (lazygettext self), st).

Definition __getitem__ (self : t) (item : string) : Translation.M string :=
  Translation.with_override (Some item) (render self).

Definition __contains__ (self : t) (item : string) : bool := true.

Definition __str__ (self : t) : Translation.M string := render self.

End Gettext.

End LazyGettextProxy.

(** What the attribute [data] can hold: a value, or a proxy object. *)
Inductive content : Type :=
| CVal (v : pyval)
| CProxy (p : LazyGettextProxy.t).

(** [bool(c)]: a proxy defines neither [__bool__] nor [__len__]. *)
Definition content_truthy (c : content) : bool :=
  match c with
  | CVal v => truthy v
  | CProxy _ => true
  end.

(** [c1 == c2]: a proxy is equal to itself only. *)
Definition content_eq (c1 c2 : content) : bool :=
  match c1, c2 with
  | CVal a, CVal b => py_eq a b
  | CProxy p, CProxy q => (LazyGettextProxy.oid p =? LazyGettextProxy.oid q)%nat
  | _, _ => false
  end.

Module LazyI18nString.

Record t : Type := { data : content }.

(** What looking an attribute up finds, the same at every lookup: a stored
    value, or a property whose getter raises. *)
Inductive attribute (A : Type) : Type :=
| Value (a : A)
| Raising (e : exn).

Arguments Value {A} a.
Arguments Raising {A} e.

(** What a call of a method [__eq__] does: it returns an object, returns
    [NotImplemented], or raises. *)
Inductive answer (A : Type) : Type :=
| Returns (a : A)
| NotImplemented
| Throws (e : exn).

Arguments Returns {A} a.
Arguments NotImplemented {A}.
Arguments Throws {A} e.

(** An operand of [==]: a value or proxy, an instance of this class, or an
    object of another class (one that derives neither from this class nor
    from a built-in type), given by its identity, its attributes and what its
    [__eq__] does with a value or proxy as argument. *)
Inductive pyobj : Type :=
| Plain (c : content)
| Instance (i : t)
| Foreign (oid : nat) (attrs : list (string * attribute pyobj))
    (eq : content -> answer pyobj).

(** [True] and [False] as objects. *)
Definition of_bool (b : bool) : pyobj := Plain (CVal (PBool b)).

Fixpoint attr_lookup {A : Type} (attrs : list (string * A)) (name : string) : option A :=
  match attrs with
  | [] => None
  | (n, a) :: rest => if n =? name then Some a else attr_lookup rest name
  end.

(** [getattr(other, name)]; of an instance, [data] is the only attribute
    looked up. *)
Definition getattr (other : pyobj) (name : string) : pyresult pyobj :=
  match other with
  | Plain _ => Raise AttributeError
  | Instance i => if name =? "data" then Ok (Plain (data i)) else Raise AttributeError
  | Foreign _ attrs _ =>
      match attr_lookup attrs name with
      | Some (Value x) => Ok x
      | Some (Raising e) => Raise e
      | None => Raise AttributeError
      end
  end.

(** [hasattr(other, name)] calls [getattr] and catches [AttributeError]
    only. *)
Definition hasattr (other : pyobj) (name : string) : pyresult bool :=
  match getattr other name with
  | Ok _ => Ok true
  | Raise AttributeError => Ok false
  | Raise e => Raise e
  end.

(** [c == x] for a value or proxy [c].  The [__eq__] of [c] answers for a
    value or proxy [x] and returns [NotImplemented] for any other object,
    whose own [__eq__] is then called with [c]; when that returns
    [NotImplemented] too, the two objects are compared by identity and
    differ.  The [__eq__] of an instance is the method below, which ends
    here in its last branch, or returns [False] for [None]. *)
Definition equals (c : content) (x : pyobj) : pyresult pyobj :=
  match x with
  | Plain c' => Ok (of_bool (content_eq c c'))
  | Instance i =>
      match c with
      | CVal PNone => Ok (of_bool false)
      | _ => Ok (of_bool (content_eq (data i) c))
      end
  | Foreign _ _ eq =>
      match eq c with
      | Returns v => Ok v
      | NotImplemented => Ok (of_bool false)
      | Throws e => Raise e
      end
  end.

Definition is_None (other : pyobj) : bool :=
  match other with
  | Plain (CVal PNone) => true
  | _ => false
  end.

Section Settings.

Variable json_loads : string -> pyresult pyval.
Variable LANGUAGE_CODE : string.

Definition __init__ (data : pyval) : option (pyresult t) :=
  let dict_data : pyresult pyval :=
    match data with
    | PStr s =>
        match json_loads s with
        | Ok parsed => Ok parsed
        | Raise ValueError => Ok (PDict [("_naive", data)])
        | Raise e => Raise e
        end
    | _ => Ok data
    end in
  match dict_data with
  | Raise e => Some (Raise e)
  | Ok dict_data =>
      match UserDict_init dict_data with
      | None => None
      | Some (Raise e) => Some (Raise e)
      | Some (Ok d) => Some (Ok {| data := CVal (PDict d) |})
      end
  end.

Definition __bool__ (self : t) : bool :=
  if negb (content_truthy (data self)) then false
  else match data self with
       | CVal (PDict d) => existsb truthy (dict_values d)
       | _ => true
       end.

(** The loop of [localize] over [similar]; running off its end is the
    implicit [return None]. *)
Fixpoint first_similar (d : dict) (similar : list string) : pyval :=
  match similar with
  | [] => PNone
  | s :: rest =>
      if truthy (dict_get d s) then dict_get d s else first_similar d rest
  end.

Definition similar_keys (d : dict) (lng firstpart : string) : list string :=
  filter
    (fun loc =>
       ((negb (loc =? "_naive") && startswith loc (firstpart ++ "-")%string)
        || (firstpart =? loc))
       && negb (loc =? lng))
    (dict_keys d).

Definition localize (self : t) (lng : string) : pyresult pyval :=
  if negb (content_truthy (data self)) then Ok (PStr "")
  else
    let firstpart := nth 0 (str_split hyphen lng) EmptyString in
    match data self with
    | CVal (PDict d) =>
        let similar := similar_keys d lng firstpart in
        if truthy (dict_get d lng) then dict_getitem d lng
        else if truthy (dict_get d firstpart) then dict_getitem d firstpart
        else if match similar with [] => false | _ :: _ => true end
                && existsb truthy (map (dict_get d) similar)
             then Ok (first_similar d similar)
        else if truthy (dict_get d LANGUAGE_CODE)
             then dict_getitem d LANGUAGE_CODE
        else
          let filled := filter truthy (dict_values d) in
          match filled with
          | f :: _ => Ok f
          | [] => Ok (PStr "")
          end
    | _ => Raise AttributeError
    end.

Definition __str__ (self : t) : Translation.M pyval :=
  active <- Translation.get_language ;;
  let lng := match active with
             | Some l => if l =? "" then LANGUAGE_CODE else l
             | None => LANGUAGE_CODE
             end in
  fun st => (localize self lng, st).

Definition __eq__ (self : t) (other : pyobj) : pyresult pyobj :=
  if is_None other then Ok (of_bool false)
  else match hasattr other "data" with
       | Raise e => Raise e
       | Ok true =>
           match getattr other "data" with
           | Ok other_data => equals (data self) other_data
           | Raise e => Raise e
           end
       | Ok false => equals (data self) other
       end.

Definition from_gettext (oid : nat) (lazygettext : string) : option (pyresult t) :=
  match __init__ (PDict []) with
  | Some (Ok result) =>
      Some (Ok {| data := CProxy {| LazyGettextProxy.oid := oid;
                                    LazyGettextProxy.lazygettext := lazygettext |} |})
  | r => r
  end.

End Settings.

Section Methods.

Variable LANGUAGE_CODE : string.
Variable gettext : Translation.lang -> string -> pyresult string.

(** [{k: f(v) for k, v in items}]: the first call of [f] that raises ends
    the comprehension. *)
Fixpoint comprehension (f : pyval -> pyresult pyval) (items acc : dict) : pyresult dict :=
  match items with
  | [] => Ok acc
  | (k, v) :: rest =>
      match f v with
      | Ok w => comprehension f rest (dict_setitem acc k w)
      | Raise e => Raise e
      end
  end.

(** [map] assigns [self.data]; the instance after the call is the result. *)
Definition map (f : pyval -> pyresult pyval) (self : t) : pyresult t :=
  match data self with
  | CVal (PDict d) =>
      match comprehension f d [] with
      | Ok d' => Ok {| data := CVal (PDict d') |}
      | Raise e => Raise e
      end
  | _ => Raise AttributeError
  end.

(** [str(x)] on an instance: [__str__] has to return a [str]. *)
Definition str (self : t) : Translation.M string :=
  v <- __str__ LANGUAGE_CODE self ;;
  fun st => (match v with
             | PStr s => Ok s
             | _ => Raise TypeError
             end, st).

(** [str(other)]; [None] for an operand whose text is not modelled (the
    [repr] of a list, of a dictionary or of a foreign object). *)
Definition str_other (other : pyobj) : option (Translation.M string) :=
  match other with
  | Instance i => Some (str i)
  | Plain (CProxy p) => Some (LazyGettextProxy.__str__ gettext p)
  | Plain (CVal (PStr s)) => Some (Translation.ret s)
  | Plain (CVal PNone) => Some (Translation.ret "None")
  | Plain (CVal (PBool true)) => Some (Translation.ret "True")
  | Plain (CVal (PBool false)) => Some (Translation.ret "False")
  | Plain (CVal (PInt n)) => Some (Translation.ret (Json.int_repr n))
  | _ => None
  end.

Definition __lt__ (self : t) (other : pyobj) : option (Translation.M bool) :=
  match str_other other with
  | None => None
  | Some text_of_other =>
      Some (a <- str self ;;
            b <- text_of_other ;;
            Translation.ret (a <? b)%string)
  end.

Definition __format__ (self : t) (format_spec : string) : Translation.M pyval :=
  __str__ LANGUAGE_CODE self.

End Methods.

End LazyI18nString.

(** ** [i18nfield/fields.py] *)

Module I18nField.

Import LazyI18nString.

Section Settings.

Variable encode_basestring_ascii : string -> string.
Variable gettext : Translation.lang -> string -> pyresult string.
Variable LANGUAGES : list (string * string).

(** [{k: v for k, v in value.items() if v}] *)
Definition truthy_items (items : dict) : dict :=
  fold_left
    (fun acc kv => if truthy (snd kv) then dict_setitem acc (fst kv) (snd kv) else acc)
    items [].

(** [{lng: value[lng] for lng, lngname in settings.LANGUAGES if value[lng]}]:
    the condition and the value each look the proxy up. *)
Fixpoint rendered_items (value : LazyGettextProxy.t) (languages : list (string * string))
  (acc : dict) : Translation.M dict :=
  match languages with
  | [] => Translation.ret acc
  | (lng, lngname) :: rest =>
      cond <- LazyGettextProxy.__getitem__ gettext value lng ;;
      if truthy (PStr cond) then
        v <- LazyGettextProxy.__getitem__ gettext value lng ;;
        rendered_items value rest (dict_setitem acc lng (PStr v))
      else rendered_items value rest acc
  end.

Definition get_prep_value (value : pyobj) : Translation.M pyobj :=
  let value := match value with
               | Instance i => Plain (data i)
               | _ => value
               end in
  match value with
  | Plain (CVal (PDict d)) =>
      Translation.ret
        (Plain (CVal (PStr (Json.dumps encode_basestring_ascii true (PDict (truthy_items d))))))
  | Plain (CProxy p) =>
      items <- rendered_items p LANGUAGES [] ;;
      Translation.ret
        (Plain (CVal (PStr (Json.dumps encode_basestring_ascii true (PDict items)))))
  | _ => Translation.ret value
  end.

End Settings.

Section Conversion.

Variable json_loads : string -> pyresult pyval.

(** [None] where the constructor is given an object outside the modelled
    values. *)
Definition to_python (value : pyobj) : option (pyresult pyobj) :=
  match value with
  | Instance _ => Some (Ok value)
  | Plain (CVal PNone) => Some (Ok value)
  | Plain (CVal v) =>
      match LazyI18nString.__init__ json_loads v with
      | None => None
      | Some (Raise e) => Some (Raise e)
      | Some (Ok i) => Some (Ok (Instance i))
      end
  | _ => None
  end.

End Conversion.

End I18nField.

(** ** [i18nfield/forms.py] *)

Module Forms.

(** The exceptions of the form code: those of the values, and [IndexError]. *)
Inductive error : Type :=
| Builtin (e : exn)
| IndexError.

Inductive outcome (A : Type) : Type :=
| Done (a : A)
| Fail (e : error).

Arguments Done {A} a.
Arguments Fail {A} e.

(** [l[i] = x] where [i] is [None] or an index *)
Fixpoint list_set (l : list pyval) (i : nat) (x : pyval) : option (list pyval) :=
  match l, i with
  | [], _ => None
  | _ :: rest, O => Some (x :: rest)
  | y :: rest, S i' =>
      match list_set rest i' x with
      | Some rest' => Some (y :: rest')
      | None => None
      end
  end.

Definition store (l : list pyval) (i : option nat) (x : pyval) : outcome (list pyval) :=
  match i with
  | None => Fail (Builtin TypeError)
  | Some i =>
      match list_set l i x with
      | Some l' => Done l'
      | None => Fail IndexError
      end
  end.

(** [x in l] for a list of locale codes *)
Definition contains (l : list string) (x : string) : bool := existsb (String.eqb x) l.

Section Widget.

Variable json_loads : string -> pyresult pyval.
Variable LANGUAGE_CODE : string.
Variable gettext : Translation.lang -> string -> pyresult string.
Variable locales : list string.
Variable enabled_locales : list string.

(** [value.data[lng] if ... and lng in value.data else None] *)
Definition dataline (value : LazyI18nString.t) (lng : string) : Translation.M pyval :=
  match LazyI18nString.data value with
  | CVal (PDict d) =>
      match dict_lookup d lng with
      | Some v => Translation.ret v
      | None => Translation.ret PNone
      end
  | CProxy p =>
      if LazyGettextProxy.__contains__ p lng then
        s <- LazyGettextProxy.__getitem__ gettext p lng ;; Translation.ret (PStr s)
      else Translation.ret PNone
  | CVal _ => Translation.ret PNone
  end.

(** The loop of [decompress] from index [i] on.  [if not first_enabled]
    holds for [None] and for the index [0]. *)
Fixpoint decompress_loop (value : LazyI18nString.t) (i : nat) (rest : list string)
  (first_enabled : option nat) (any_enabled_filled : bool) (data : list pyval)
  : Translation.M (option nat * bool * list pyval) :=
  match rest with
  | [] => Translation.ret (first_enabled, any_enabled_filled, data)
  | lng :: rest' =>
      line <- dataline value lng ;;
      let enabled := contains enabled_locales lng in
      let first_enabled' :=
        if enabled then
          match first_enabled with
          | None | Some O => Some i
          | Some (S _) => first_enabled
          end
        else first_enabled in
      let any_enabled_filled' :=
        if enabled && truthy line then true else any_enabled_filled in
      decompress_loop value (S i) rest' first_enabled' any_enabled_filled'
        (data ++ [line])
  end.

(** [LazyI18nString(value)] unless [value] is an instance *)
Definition wrap (value : LazyI18nString.pyobj) : option (pyresult LazyI18nString.t) :=
  match value with
  | LazyI18nString.Instance i => Some (Ok i)
  | LazyI18nString.Plain (CVal v) => LazyI18nString.__init__ json_loads v
  | _ => None
  end.

Definition decompress (value : LazyI18nString.pyobj)
  : option (Translation.lang -> outcome (list pyval) * Translation.lang) :=
  match wrap value with
  | None => None
  | Some (Raise e) => Some (fun st => (Fail (Builtin e), st))
  | Some (Ok value) =>
      Some (fun st =>
        match decompress_loop value 0 locales None false [] st with
        | (Raise e, st') => (Fail (Builtin e), st')
        | (Ok (first_enabled, any_enabled_filled, data), st') =>
            match LazyI18nString.data value with
            | CVal (PDict _) | CProxy _ =>
                if LazyI18nString.__bool__ value && negb any_enabled_filled then
                  match enabled_locales with
                  | [] => (Fail IndexError, st')
                  | lng :: _ =>
                      match LazyI18nString.localize LANGUAGE_CODE value lng with
                      | Raise e => (Fail (Builtin e), st')
                      | Ok text => (store data first_enabled text, st')
                      end
                  end
                else (Done data, st')
            | CVal v =>
                if LazyI18nString.__bool__ value then (store data first_enabled v, st')
                else (Done data, st')
            end
        end)
  end.

End Widget.

Section FormField.

Variable json_loads : string -> pyresult pyval.
Variable locales : list string.

(** The loop of [compress]: [data[locales[i]] = value] *)
Fixpoint compress_loop (i : nat) (data_list : list pyval) (data : dict) : outcome dict :=
  match data_list with
  | [] => Done data
  | value :: rest =>
      match nth_error locales i with
      | None => Fail IndexError
      | Some lng => compress_loop (S i) rest (dict_setitem data lng value)
      end
  end.

Definition compress (data_list : list pyval) : option (outcome LazyI18nString.t) :=
  match compress_loop 0 data_list [] with
  | Fail e => Some (Fail e)
  | Done data =>
      match LazyI18nString.__init__ json_loads (PDict data) with
      | None => None
      | Some (Raise e) => Some (Fail (Builtin e))
      | Some (Ok i) => Some (Done i)
      end
  end.

End FormField.

End Forms.

(** ** A reference codec

    One admissible value for the parameters [encode_basestring_ascii] and
    [json_loads], used to evaluate the model on concrete inputs.  It covers
    ASCII text, integers without fraction or exponent and the two-character
    escapes; it rejects everything else. *)

Module JsonRef.

Definition dquote : ascii := ascii_of_nat 34.
Definition backslash : ascii := ascii_of_nat 92.
Definition dq : string := String dquote EmptyString.

Definition hex_digit (n : nat) : ascii :=
  ascii_of_nat (if (n <? 10)%nat then 48 + n else 87 + n).

Definition escape_char (c : ascii) : string :=
  let n := nat_of_ascii c in
  if Ascii.eqb c dquote then String backslash dq
  else if Ascii.eqb c backslash then String backslash (String backslash EmptyString)
  else if (n =? 10)%nat then String backslash "n"
  else if (n =? 13)%nat then String backslash "r"
  else if (n =? 9)%nat then String backslash "t"
  else if (n =? 8)%nat then String backslash "b"
  else if (n =? 12)%nat then String backslash "f"
  else if ((n <? 32) || (126 <? n))%nat then
    String backslash
      (String "u" (String "0" (String "0"
         (String (hex_digit (n / 16)) (String (hex_digit (n mod 16)) EmptyString)))))
  else String c EmptyString.

Fixpoint escape_body (s : string) : string :=
  match s with
  | EmptyString => EmptyString
  | String c rest => (escape_char c ++ escape_body rest)%string
  end.

Definition encode_basestring_ascii (s : string) : string :=
  (dq ++ escape_body s ++ dq)%string.

Definition is_ws (c : ascii) : bool :=
  let n := nat_of_ascii c in
  ((n =? 32) || (n =? 9) || (n =? 10) || (n =? 13))%nat.

Fixpoint skip_ws (s : string) : string :=
  match s with
  | String c rest => if is_ws c then skip_ws rest else s
  | EmptyString => s
  end.

Definition unescape (c : ascii) : option ascii :=
  let n := nat_of_ascii c in
  if Ascii.eqb c dquote then Some dquote
  else if Ascii.eqb c backslash then Some backslash
  else if Ascii.eqb c "/"%char then Some "/"%char
  else if Ascii.eqb c "n"%char then Some (ascii_of_nat 10)
  else if Ascii.eqb c "r"%char then Some (ascii_of_nat 13)
  else if Ascii.eqb c "t"%char then Some (ascii_of_nat 9)
  else if Ascii.eqb c "b"%char then Some (ascii_of_nat 8)
  else if Ascii.eqb c "f"%char then Some (ascii_of_nat 12)
  else None.

(** The text after an opening quote: the string it holds and what follows
    the closing quote. *)
Fixpoint scan_string (s : string) : option (string * string) :=
  match s with
  | EmptyString => None
  | String c rest =>
      if Ascii.eqb c dquote then Some (EmptyString, rest)
      else if Ascii.eqb c backslash then
        match rest with
        | EmptyString => None
        | String e rest' =>
            match unescape e, scan_string rest' with
            | Some c', Some (body, tail) => Some (String c' body, tail)
            | _, _ => None
            end
        end
      else if (nat_of_ascii c <? 32)%nat then None
      else
        match scan_string rest with
        | Some (body, tail) => Some (String c body, tail)
        | None => None
        end
  end.

Definition is_digit (c : ascii) : bool :=
  let n := nat_of_ascii c in ((48 <=? n) && (n <=? 57))%nat.

Fixpoint scan_digits (acc : Z) (s : string) : Z * string :=
  match s with
  | String c rest =>
      if is_digit c then scan_digits (10 * acc + Z.of_nat (nat_of_ascii c - 48)) rest
      else (acc, s)
  | EmptyString => (acc, s)
  end.

(** An integer literal: no leading zero, no fraction, no exponent. *)
Definition scan_int (s : string) : option (Z * string) :=
  let (negative, digits) :=
    match s with
    | String "-"%char rest => (true, rest)
    | _ => (false, s)
    end in
  match digits with
  | String c rest =>
      if is_digit c then
        let (n, tail) := if Ascii.eqb c "0"%char then (0%Z, rest) else scan_digits 0 digits in
        match tail with
        | String d _ =>
            if is_digit d || Ascii.eqb d "."%char || Ascii.eqb d "e"%char || Ascii.eqb d "E"%char
            then None
            else Some (if negative then (- n)%Z else n, tail)
        | EmptyString => Some (if negative then (- n)%Z else n, tail)
        end
      else None
  | EmptyString => None
  end.

Fixpoint scan_value (fuel : nat) (s : string) : option (pyval * string) :=
  match fuel with
  | O => None
  | S fuel' =>
      match skip_ws s with
      | EmptyString => None
      | String c rest =>
          if Ascii.eqb c dquote then
            match scan_string rest with
            | Some (body, tail) => Some (PStr body, tail)
            | None => None
            end
          else if Ascii.eqb c "{"%char then
            match skip_ws rest with
            | String "}"%char tail => Some (PDict [], tail)
            | _ =>
                (fix members (n : nat) (acc : dict) (s : string) : option (pyval * string) :=
                   match n with
                   | O => None
                   | S n' =>
                       match skip_ws s with
                       | String q after_quote =>
                           if Ascii.eqb q dquote then
                             match scan_string after_quote with
                             | Some (key, after_key) =>
                                 match skip_ws after_key with
                                 | String ":"%char after_colon =>
                                     match scan_value fuel' after_colon with
                                     | Some (v, after_value) =>
                                         match skip_ws after_value with
                                         | String ","%char more =>
                                             members n' (dict_setitem acc key v) more
                                         | String "}"%char tail =>
                                             Some (PDict (dict_setitem acc key v), tail)
                                         | _ => None
                                         end
                                     | None => None
                                     end
                                 | _ => None
                                 end
                             | None => None
                             end
                           else None
                       | EmptyString => None
                       end
                   end) fuel' [] rest
            end
          else if Ascii.eqb c "["%char then
            match skip_ws rest with
            | String "]"%char tail => Some (PList [], tail)
            | _ =>
                (fix elements (n : nat) (acc : list pyval) (s : string) : option (pyval * string) :=
                   match n with
                   | O => None
                   | S n' =>
                       match scan_value fuel' s with
                       | Some (v, after_value) =>
                           match skip_ws after_value with
                           | String ","%char more => elements n' (acc ++ [v]) more
                           | String "]"%char tail => Some (PList (acc ++ [v]), tail)
                           | _ => None
                           end
                       | None => None
                       end
                   end) fuel' [] rest
            end
          else if startswith (String c rest) "null" then
            Some (PNone, substring 4 (String.length rest) (String c rest))
          else if startswith (String c rest) "true" then
            Some (PBool true, substring 4 (String.length rest) (String c rest))
          else if startswith (String c rest) "false" then
            Some (PBool false, substring 5 (String.length rest) (String c rest))
          else
            match scan_int (String c rest) with
            | Some (n, tail) => Some (PInt n, tail)
            | None => None
            end
      end
  end.

(** [json.loads] on the fragment: a syntax error is a [ValueError]. *)
Definition json_loads (s : string) : pyresult pyval :=
  match scan_value (S (String.length s)) s with
  | Some (v, tail) =>
      match skip_ws tail with
      | EmptyString => Ok v
      | String _ _ => Raise ValueError
      end
  | None => Raise ValueError
  end.

End JsonRef.

(** ** Sample settings

    A configuration and values on which the model is evaluated. *)

Module Example.

Definition LANGUAGES : list (string * string) :=
  [("en", "English"); ("de", "German"); ("de-AT", "Austrian German")].

(** A catalog that translates one message into German and leaves every other
    message as it is. *)
Definition gettext (active : Translation.lang) (message : string) : pyresult string :=
  match active with
  | Some "de" => if message =? "Hello" then Ok "Hallo" else Ok message
  | Some "de-AT" => if message =? "Hello" then Ok "" else Ok message
  | _ => Ok message
  end.

Definition greeting : dict :=
  [("fr", PStr "Bonjour"); ("en", PStr ""); ("de", PStr "Hallo")].

Definition hello : LazyGettextProxy.t :=
  {| LazyGettextProxy.oid := 0; LazyGettextProxy.lazygettext := "Hello" |}.

(** A transformation for [map]: it doubles a text and rejects other values. *)
Definition twice (v : pyval) : pyresult pyval :=
  match v with
  | PStr s => Ok (PStr (s ++ s))
  | _ => Raise TypeError
  end.

Definition twice_value (v : pyval) : pyval :=
  match v with
  | PStr s => PStr (s ++ s)
  | _ => v
  end.

(** An object of another class whose attribute [data] holds a mapping. *)
Definition lookalike : LazyI18nString.pyobj :=
  LazyI18nString.Foreign 1
    [("data", LazyI18nString.Value
                (LazyI18nString.Plain (CVal (PDict [("de", PStr "Hallo")]))))]
    (fun _ => LazyI18nString.NotImplemented).

(** An object like [unittest.mock.ANY]: no attribute [data], and an [__eq__]
    that returns [True] whatever it is compared with. *)
Definition ANY : LazyI18nString.pyobj :=
  LazyI18nString.Foreign 2 []
    (fun _ => LazyI18nString.Returns (LazyI18nString.of_bool true)).

(** An object whose [data] is a property that raises [ValueError]. *)
Definition broken : LazyI18nString.pyobj :=
  LazyI18nString.Foreign 3 [("data", LazyI18nString.Raising ValueError)]
    (fun _ => LazyI18nString.NotImplemented).

End Example.

(** ** The specification's notions

    Definitions that follow the words of the specification, to be compared
    with the code above. *)

Module Spec.

(** The base of a locale code: its text before the first hyphen. *)
Fixpoint base (locale : string) : string :=
  match locale with
  | EmptyString => EmptyString
  | String c rest => if Ascii.eqb c hyphen then EmptyString else String c (base rest)
  end.

(** The value stored at a key, if it is truthy. *)
Definition truthy_at (d : dict) (k : string) : option pyval :=
  match dict_lookup d k with
  | Some v => if truthy v then Some v else None
  | None => None
  end.

(** The similar keys: keys other than the locale and other than the naive
    sentinel whose own base is the base of the locale. *)
Definition similar (d : dict) (locale : string) : list string :=
  filter
    (fun k => negb (k =? locale) && negb (k =? "_naive") && (base k =? base locale))
    (dict_keys d).

Fixpoint first_truthy (vs : list pyval) : option pyval :=
  match vs with
  | [] => None
  | v :: rest => if truthy v then Some v else first_truthy rest
  end.

(** Steps (d) to (f): the default locale, then any value, then the empty
    string. *)
Definition default_or_first_filled (default : string) (d : dict) : pyval :=
  match truthy_at d default with
  | Some v => v
  | None =>
      match first_truthy (dict_values d) with
      | Some v => v
      | None => PStr ""
      end
  end.

(** Steps (a) to (f) in their order. *)
Definition localize (default : string) (d : dict) (locale : string) : pyval :=
  match d with
  | [] => PStr ""
  | _ :: _ =>
      match truthy_at d locale with
      | Some v => v
      | None =>
          match truthy_at d (base locale) with
          | Some v => v
          | None =>
              match first_truthy (map (dict_get d) (similar d locale)) with
              | Some v => v
              | None => default_or_first_filled default d
              end
          end
      end
  end.

(** Two optional values agree under [==]. *)
Definition same_value (a b : option pyval) : Prop :=
  match a, b with
  | Some v, Some w => py_eq v w = true
  | None, None => True
  | _, _ => False
  end.

(** Two mappings are equal: the same keys, with equal values. *)
Definition same_mapping (d1 d2 : dict) : Prop :=
  forall k, same_value (dict_lookup d1 k) (dict_lookup d2 k).

(** Two mappings have the same truthy entries. *)
Definition same_truthy_entries (d1 d2 : dict) : Prop :=
  forall k, same_value (truthy_at d1 k) (truthy_at d2 k).

(** The keys of the members go up strictly. *)
Definition keys_sorted {A : Type} (members : list (string * A)) : Prop :=
  StronglySorted (fun m1 m2 => (fst m1 <? fst m2)%string = true) members.

(** The rendering of a message under a locale, when it succeeds and is
    truthy. *)
Definition rendering (gettext : Translation.lang -> string -> pyresult string)
  (message locale : string) : option pyval :=
  match gettext (Some locale) message with
  | Ok s => if truthy (PStr s) then Some (PStr s) else None
  | Raise _ => None
  end.

(** An operand whose type is neither the localized string type nor a
    mapping. *)
Definition incompatible (other : LazyI18nString.pyobj) : bool :=
  match other with
  | LazyI18nString.Instance _ => false
  | LazyI18nString.Plain (CVal (PDict _)) => false
  | _ => true
  end.

(** An operand that leaves equality as [object] defines it. *)
Definition default_equality (other : LazyI18nString.pyobj) : Prop :=
  match other with
  | LazyI18nString.Foreign _ _ eq => forall c, eq c = LazyI18nString.NotImplemented
  | _ => True
  end.

End Spec.

(** * Properties *)

(** ** Strings *)

Lemma split_head (s : string) :
  nth 0 (str_split hyphen s) EmptyString = Spec.base s.
Proof.
  induction s as [|c s IH]; simpl; [reflexivity|].
  destruct (Ascii.eqb c hyphen); [reflexivity|].
  destruct (str_split hyphen s) as [|piece pieces]; simpl in *; now rewrite IH.
Qed.

(** A key has the base of the locale exactly when it is that base or begins
    with the base and a hyphen. *)
Lemma base_eqb_prefix (locale k : string) :
  (Spec.base k =? Spec.base locale) =
  (k =? Spec.base locale) || startswith k (Spec.base locale ++ "-")%string.
Proof.
  revert k. induction locale as [|a locale IH]; intros k.
  - simpl. destruct k as [|c r]; simpl; [reflexivity|].
    rewrite andb_true_r. unfold hyphen. now destruct (Ascii.eqb c "-").
  - simpl. destruct (Ascii.eqb a hyphen) eqn:Ha.
    + simpl. destruct k as [|c r]; simpl; [reflexivity|].
      rewrite andb_true_r. unfold hyphen. now destruct (Ascii.eqb c "-").
    + destruct k as [|c r]; simpl; [reflexivity|].
      destruct (Ascii.eqb c hyphen) eqn:Hc.
      * assert (Hca : Ascii.eqb c a = false).
        { apply Ascii.eqb_eq in Hc. apply Ascii.eqb_neq. intros Heq.
          apply Ascii.eqb_neq in Ha. apply Ha. congruence. }
        now rewrite Hca.
      * simpl. rewrite IH. now destruct (Ascii.eqb c a).
Qed.

(** ** Dictionaries *)

Lemma truthy_at_get (d : dict) (k : string) :
  Spec.truthy_at d k =
  if truthy (dict_get d k) then Some (dict_get d k) else None.
Proof.
  unfold Spec.truthy_at, dict_get. now destruct (dict_lookup d k).
Qed.

Lemma getitem_truthy_get (d : dict) (k : string) :
  truthy (dict_get d k) = true -> dict_getitem d k = Ok (dict_get d k).
Proof.
  unfold dict_get, dict_getitem. destruct (dict_lookup d k); [reflexivity|discriminate].
Qed.

Lemma first_truthy_similar (d : dict) (keys : list string) :
  Spec.first_truthy (map (dict_get d) keys) =
  if existsb truthy (map (dict_get d) keys)
  then Some (LazyI18nString.first_similar d keys) else None.
Proof.
  induction keys as [|k keys IH]; simpl; [reflexivity|].
  destruct (truthy (dict_get d k)); simpl; [reflexivity|exact IH].
Qed.

Lemma first_truthy_filter (vs : list pyval) :
  Spec.first_truthy vs =
  match filter truthy vs with
  | f :: _ => Some f
  | [] => None
  end.
Proof.
  induction vs as [|v vs IH]; simpl; [reflexivity|].
  destruct (truthy v); [reflexivity|exact IH].
Qed.

(** Two selections of keys that differ on keys with a falsy value only have
    the same first truthy value. *)
Lemma first_truthy_filter_ext (get : string -> pyval) (P Q : string -> bool)
  (keys : list string) :
  (forall k, In k keys -> P k <> Q k -> truthy (get k) = false) ->
  Spec.first_truthy (map get (filter P keys)) =
  Spec.first_truthy (map get (filter Q keys)).
Proof.
  induction keys as [|k keys IH]; intros H; simpl; [reflexivity|].
  assert (IH' := IH (fun k' Hin => H k' (or_intror Hin))).
  assert (Hk := H k (or_introl eq_refl)).
  destruct (P k) eqn:HP, (Q k) eqn:HQ; simpl; rewrite ?IH'; try reflexivity.
  - rewrite Hk by discriminate. reflexivity.
  - rewrite Hk by discriminate. reflexivity.
Qed.

(** The code's selection of similar keys and the specification's differ at
    most at the base key itself. *)
Lemma similar_keys_differ (locale k : string) :
  (((negb (k =? "_naive") && startswith k (Spec.base locale ++ "-")%string)
    || (Spec.base locale =? k)) && negb (k =? locale))
  <> (negb (k =? locale) && negb (k =? "_naive")
      && (Spec.base k =? Spec.base locale)) ->
  k = Spec.base locale.
Proof.
  rewrite base_eqb_prefix, (String.eqb_sym (Spec.base locale) k).
  destruct (k =? Spec.base locale) eqn:Hb; [now apply String.eqb_eq in Hb|].
  intros H. exfalso. apply H.
  destruct (k =? "_naive"), (startswith k (Spec.base locale ++ "-")), (k =? locale);
    reflexivity.
Qed.

Lemma similar_first_truthy (d : dict) (locale : string) :
  truthy (dict_get d (Spec.base locale)) = false ->
  Spec.first_truthy
    (map (dict_get d) (LazyI18nString.similar_keys d locale (Spec.base locale))) =
  Spec.first_truthy (map (dict_get d) (Spec.similar d locale)).
Proof.
  intros Hbase. unfold LazyI18nString.similar_keys, Spec.similar.
  apply first_truthy_filter_ext. intros k _ Hne.
  apply similar_keys_differ in Hne. now subst k.
Qed.

(** ** Resolution *)

(** The code's [localize] computes the specification's steps. *)
Lemma localize_refines (LANGUAGE_CODE : string) (d : dict) (lng : string) :
  LazyI18nString.localize LANGUAGE_CODE {| LazyI18nString.data := CVal (PDict d) |} lng
  = Ok (Spec.localize LANGUAGE_CODE d lng).
Proof.
  unfold LazyI18nString.localize, Spec.localize. simpl.
  destruct d as [|kv d']; [reflexivity|].
  set (d := kv :: d'). simpl negb. cbv iota.
  rewrite split_head, !truthy_at_get.
  destruct (truthy (dict_get d lng)) eqn:Hl.
  { now apply getitem_truthy_get. }
  destruct (truthy (dict_get d (Spec.base lng))) eqn:Hb.
  { now apply getitem_truthy_get. }
  rewrite <- (similar_first_truthy d lng Hb), first_truthy_similar.
  destruct (LazyI18nString.similar_keys d lng (Spec.base lng)) as [|s similar] eqn:Hs.
  - rewrite andb_false_l. cbn [map existsb].
    unfold Spec.default_or_first_filled. rewrite truthy_at_get.
    destruct (truthy (dict_get d LANGUAGE_CODE)) eqn:Hd.
    + now apply getitem_truthy_get.
    + rewrite first_truthy_filter. now destruct (filter truthy (dict_values d)).
  - rewrite andb_true_l.
    destruct (existsb truthy (map (dict_get d) (s :: similar))); [reflexivity|].
    unfold Spec.default_or_first_filled. rewrite truthy_at_get.
    destruct (truthy (dict_get d LANGUAGE_CODE)) eqn:Hd.
    + now apply getitem_truthy_get.
    + rewrite first_truthy_filter. now destruct (filter truthy (dict_values d)).
Qed.

(** C1.  On a mapping-backed instance [localize] returns the first of: the
    truthy value at the locale, the truthy value at its base, the first
    truthy value among the similar keys in insertion order, the truthy value
    at the system default locale, the first truthy value of the mapping, the
    empty string; on an empty mapping it returns the empty string. *)
Theorem localize_priority_order (LANGUAGE_CODE : string) (d : dict) (lng : string) :
  LazyI18nString.localize LANGUAGE_CODE {| LazyI18nString.data := CVal (PDict d) |} lng
  = Ok (Spec.localize LANGUAGE_CODE d lng)
  /\ LazyI18nString.localize LANGUAGE_CODE {| LazyI18nString.data := CVal (PDict []) |} lng
     = Ok (PStr "").
Proof.
  split; [apply localize_refines|reflexivity].
Qed.

Lemma first_truthy_none (vs : list pyval) :
  (forall v, In v vs -> truthy v = false) -> Spec.first_truthy vs = None.
Proof.
  induction vs as [|v vs IH]; intros H; simpl; [reflexivity|].
  rewrite (H v (or_introl eq_refl)). apply IH. intros w Hw. apply H. now right.
Qed.

(** C2.  When the values at the locale and at its base are falsy or absent
    and the similar keys exist but all hold falsy values, [localize] selects
    none of them: it answers with the default-locale step and then the
    first-truthy-value step. *)
Theorem localize_skips_falsy_similar (LANGUAGE_CODE : string) (d : dict) (lng : string) :
  truthy (dict_get d lng) = false ->
  truthy (dict_get d (Spec.base lng)) = false ->
  Spec.similar d lng <> [] ->
  (forall k, In k (Spec.similar d lng) -> truthy (dict_get d k) = false) ->
  LazyI18nString.localize LANGUAGE_CODE {| LazyI18nString.data := CVal (PDict d) |} lng
  = Ok (Spec.default_or_first_filled LANGUAGE_CODE d).
Proof.
  intros Hl Hb Hne Hall. rewrite localize_refines. f_equal.
  unfold Spec.localize. destruct d as [|kv d']; [now elim Hne|].
  rewrite !truthy_at_get, Hl, Hb, first_truthy_none; [reflexivity|].
  intros v Hv. apply in_map_iff in Hv. destruct Hv as [k [<- Hk]]. now apply Hall.
Qed.

Lemma localize_skips_falsy_similar_witness :
  LazyI18nString.localize "en"
    {| LazyI18nString.data :=
         CVal (PDict [("de-CH", PStr ""); ("fr", PStr "Salut"); ("en", PStr "Hello")]) |}
    "de-AT"
  = Ok (PStr "Hello").
Proof.
  apply (localize_skips_falsy_similar "en"
           [("de-CH", PStr ""); ("fr", PStr "Salut"); ("en", PStr "Hello")] "de-AT").
  - reflexivity.
  - reflexivity.
  - discriminate.
  - intros k [<-|[]]. reflexivity.
Defined.

(** A mapping-backed instance resolves every locale to a value that is
    truthy or the empty string, hence never to [None]. *)
Lemma spec_localize_filled (default : string) (d : dict) (locale : string) :
  truthy (Spec.localize default d locale) = true
  \/ Spec.localize default d locale = PStr "".
Proof.
  assert (Hat : forall k v, Spec.truthy_at d k = Some v -> truthy v = true).
  { intros k v. unfold Spec.truthy_at. destruct (dict_lookup d k) as [w|]; [|discriminate].
    destruct (truthy w) eqn:Hw; [|discriminate]. now intros [= <-]. }
  assert (Hft : forall vs v, Spec.first_truthy vs = Some v -> truthy v = true).
  { induction vs as [|w vs IH]; simpl; [discriminate|]. intros v.
    destruct (truthy w) eqn:Hw; [now intros [= <-]|apply IH]. }
  unfold Spec.localize, Spec.default_or_first_filled.
  destruct d as [|kv d']; [now right|].
  repeat match goal with
         | |- context [match ?x with Some _ => _ | None => _ end] =>
             let H := fresh "H" in destruct x eqn:H; [left; eauto|]
         end.
  now right.
Qed.

Lemma localize_mapping_total (LANGUAGE_CODE : string) (d : dict) (lng : string) :
  exists v,
    LazyI18nString.localize LANGUAGE_CODE {| LazyI18nString.data := CVal (PDict d) |} lng
    = Ok v /\ v <> PNone.
Proof.
  exists (Spec.localize LANGUAGE_CODE d lng). split; [apply localize_refines|].
  destruct (spec_localize_filled LANGUAGE_CODE d lng) as [H|H]; intros E; rewrite E in H;
    discriminate.
Qed.

Lemma from_gettext_proxy (json_loads : string -> pyresult pyval) (oid : nat) (message : string) :
  LazyI18nString.from_gettext json_loads oid message =
  Some (Ok {| LazyI18nString.data :=
                CProxy {| LazyGettextProxy.oid := oid;
                          LazyGettextProxy.lazygettext := message |} |}).
Proof. reflexivity. Qed.

(** C4.  On an instance made by [from_gettext] the code of [localize] raises:
    the proxy is truthy and has no [keys], so the resolution fails with an
    [AttributeError] for every locale. *)
Theorem localize_deferred_raises (json_loads : string -> pyresult pyval)
  (LANGUAGE_CODE : string) (oid : nat) (message lng : string) :
  exists self,
    LazyI18nString.from_gettext json_loads oid message = Some (Ok self)
    /\ LazyI18nString.localize LANGUAGE_CODE self lng = Raise AttributeError.
Proof.
  eexists. split; [apply from_gettext_proxy|reflexivity].
Qed.

(** ** Truthiness *)

Lemma existsb_truthy_false (vs : list pyval) :
  existsb truthy vs = false <-> Forall (fun v => truthy v = false) vs.
Proof.
  induction vs as [|v vs IH]; simpl.
  - split; [constructor|reflexivity].
  - rewrite orb_false_iff, IH. split.
    + intros [Hv Hvs]. now constructor.
    + intros H. inversion H; subst. now split.
Qed.

(** C7.  An instance is falsy exactly when its content is empty or absent,
    or a mapping whose values are all falsy (for a text, the empty string);
    an instance backed by a proxy is truthy. *)
Theorem bool_falsy_iff :
  (forall d,
      LazyI18nString.__bool__ {| LazyI18nString.data := CVal (PDict d) |} = false
      <-> d = [] \/ Forall (fun v => truthy v = false) (dict_values d))
  /\ LazyI18nString.__bool__ {| LazyI18nString.data := CVal PNone |} = false
  /\ (forall s, truthy (PStr s) = false <-> s = "")
  /\ (forall p, LazyI18nString.__bool__ {| LazyI18nString.data := CProxy p |} = true).
Proof.
  repeat split.
  - unfold LazyI18nString.__bool__. simpl. destruct d as [|kv d]; [now left|].
    simpl negb. cbv iota. intros H. right. now apply existsb_truthy_false.
  - unfold LazyI18nString.__bool__. simpl. intros [->|H]; [reflexivity|].
    destruct d as [|kv d]; [reflexivity|]. simpl negb. cbv iota.
    now apply existsb_truthy_false.
  - simpl. intros H. apply negb_false_iff in H. now apply String.eqb_eq in H.
  - intros ->. reflexivity.
Qed.

(** ** The scoped locale override *)

Lemma getitem_run (gettext : Translation.lang -> string -> pyresult string)
  (self : LazyGettextProxy.t) (item : string) (st : Translation.lang) :
  LazyGettextProxy.__getitem__ gettext self item st
  = (gettext (Some item) (LazyGettextProxy.lazygettext self), st).
Proof.
  unfold LazyGettextProxy.__getitem__, Translation.with_override,
    Translation.override_enter, Translation.override_exit, LazyGettextProxy.render,
    Translation.bind, Translation.get_language, Translation.activate,
    Translation.deactivate_all, Translation.ret.
  now destruct st.
Qed.

(** C9.  Looking a locale up on the proxy renders the message with that
    locale active and leaves the active locale as it was before, whether the
    rendering returns or raises. *)
Theorem getitem_restores_locale (gettext : Translation.lang -> string -> pyresult string)
  (self : LazyGettextProxy.t) (item : string) (st : Translation.lang) :
  fst (LazyGettextProxy.__getitem__ gettext self item st)
  = gettext (Some item) (LazyGettextProxy.lazygettext self)
  /\ snd (LazyGettextProxy.__getitem__ gettext self item st) = st
  /\ (forall e, gettext (Some item) (LazyGettextProxy.lazygettext self) = Raise e ->
      LazyGettextProxy.__getitem__ gettext self item st = (Raise e, st)).
Proof.
  rewrite getitem_run. repeat split. now intros e ->.
Qed.

(** ** Dictionaries as finite maps *)

Lemma lookup_Some_In (d : dict) (k : string) (v : pyval) :
  dict_lookup d k = Some v -> In (k, v) d.
Proof.
  induction d as [|[k' v'] d IH]; simpl; [discriminate|].
  destruct (k' =? k) eqn:E.
  - apply String.eqb_eq in E. intros [= ->]. left. now subst.
  - intros H. right. now apply IH.
Qed.

Lemma lookup_None_iff (d : dict) (k : string) :
  dict_lookup d k = None <-> ~ In k (dict_keys d).
Proof.
  induction d as [|[k' v'] d IH]; simpl.
  - split; [intros _ []|reflexivity].
  - destruct (k' =? k) eqn:E.
    + apply String.eqb_eq in E. split; [discriminate|]. intros H. elim H. now left.
    + apply String.eqb_neq in E. rewrite IH. split.
      * intros H [H'|H']; [now apply E|now apply H].
      * intros H H'. apply H. now right.
Qed.

Lemma lookup_In (d : dict) (k : string) (v : pyval) :
  NoDup (dict_keys d) -> In (k, v) d -> dict_lookup d k = Some v.
Proof.
  induction d as [|[k' v'] d IH]; simpl; intros Hnd Hin; [contradiction|].
  inversion Hnd as [|? ? Hnotin Hnd']; subst.
  destruct Hin as [[= -> ->]|Hin].
  - now rewrite String.eqb_refl.
  - destruct (k' =? k) eqn:E; [|now apply IH].
    apply String.eqb_eq in E. subst k'. elim Hnotin.
    change k with (fst (k, v)). now apply in_map.
Qed.

Lemma lookup_app_notin (pre l : dict) (k : string) :
  ~ In k (dict_keys pre) -> dict_lookup (pre ++ l) k = dict_lookup l k.
Proof.
  induction pre as [|[k' v'] pre IH]; simpl; intros H; [reflexivity|].
  destruct (k' =? k) eqn:E.
  - apply String.eqb_eq in E. elim H. now left.
  - apply IH. intros H'. apply H. now right.
Qed.

Lemma setitem_notin (d : dict) (k : string) (v : pyval) :
  ~ In k (dict_keys d) -> dict_setitem d k v = d ++ [(k, v)].
Proof.
  induction d as [|[k' v'] d IH]; simpl; intros H; [reflexivity|].
  destruct (k' =? k) eqn:E.
  - apply String.eqb_eq in E. elim H. now left.
  - f_equal. apply IH. intros H'. apply H. now right.
Qed.

(** Copying a dictionary key by key into an empty one gives the dictionary. *)
Lemma update_mapping_from (other pre suf : dict) :
  other = pre ++ suf -> NoDup (dict_keys other) ->
  fold_left (fun acc k => dict_setitem acc k (dict_get other k)) (dict_keys suf) pre
  = other.
Proof.
  revert pre. induction suf as [|[k v] suf IH]; intros pre Heq Hnd; simpl.
  - now rewrite app_nil_r in Heq.
  - assert (Hk : ~ In k (dict_keys pre)).
    { subst other. unfold dict_keys in *. rewrite map_app in Hnd. simpl in Hnd.
      apply NoDup_remove_2 in Hnd. intros H. apply Hnd. apply in_or_app. now left. }
    assert (Hget : dict_get other k = v).
    { unfold dict_get. subst other. rewrite lookup_app_notin by exact Hk.
      simpl. now rewrite String.eqb_refl. }
    rewrite Hget, setitem_notin by exact Hk.
    apply IH; [|exact Hnd]. now rewrite <- app_assoc.
Qed.

Lemma update_mapping_empty (m : dict) :
  NoDup (dict_keys m) -> update_mapping [] m = m.
Proof.
  intros H. unfold update_mapping. now apply update_mapping_from.
Qed.

Lemma wf_dict_unfold (items : dict) :
  wf_dict items <->
  NoDup (dict_keys items) /\ Forall (fun kv => wf_val (snd kv)) items.
Proof.
  unfold wf_dict. simpl. apply and_iff_compat_l.
  induction items as [|[k v] items IH]; simpl.
  - split; [constructor|trivial].
  - rewrite IH. split.
    + intros [Hv Hall]. now constructor.
    + intros H. inversion H; subst. now split.
Qed.

Lemma wf_list_unfold (xs : list pyval) :
  wf_val (PList xs) <-> Forall wf_val xs.
Proof.
  simpl. induction xs as [|x xs IH]; simpl.
  - split; [constructor|trivial].
  - rewrite IH. split.
    + intros [Hv Hall]. now constructor.
    + intros H. inversion H; subst. now split.
Qed.

(** ** Equality of values *)

Lemma py_eq_dict (d1 d2 : dict) :
  py_eq (PDict d1) (PDict d2) =
  (List.length d1 =? List.length d2)%nat
  && forallb (fun kv => match dict_lookup d2 (fst kv) with
                        | Some w => py_eq (snd kv) w
                        | None => false
                        end) d1.
Proof.
  simpl. f_equal. induction d1 as [|[k v] d1 IH]; simpl; [reflexivity|].
  now rewrite IH.
Qed.

Lemma py_eq_list_refl (xs : list pyval) :
  Forall (fun x => py_eq x x = true) xs -> py_eq (PList xs) (PList xs) = true.
Proof.
  simpl. induction 1 as [|x xs Hx _ IH]; [reflexivity|]. now rewrite Hx, IH.
Qed.

Lemma py_eq_refl (v : pyval) : wf_val v -> py_eq v v = true.
Proof.
  induction v as [| b | n | s | xs IH | items IH] using pyval_induction; intros Hwf.
  - reflexivity.
  - simpl. now destruct b.
  - simpl. apply Z.eqb_refl.
  - simpl. apply String.eqb_refl.
  - apply py_eq_list_refl. apply wf_list_unfold in Hwf.
    rewrite Forall_forall in *. auto.
  - apply wf_dict_unfold in Hwf. destruct Hwf as [Hnd Hall].
    rewrite py_eq_dict, Nat.eqb_refl. simpl. apply forallb_forall.
    intros [k v] Hin. simpl. rewrite (lookup_In items k v Hnd Hin).
    rewrite Forall_forall in *. apply (IH (k, v) Hin). apply (Hall (k, v) Hin).
Qed.

(** A dictionary equals another exactly when they hold the same keys with
    equal values. *)
Lemma py_eq_dict_same_mapping (d1 d2 : dict) :
  NoDup (dict_keys d1) -> NoDup (dict_keys d2) ->
  py_eq (PDict d1) (PDict d2) = true <-> Spec.same_mapping d1 d2.
Proof.
  intros Hnd1 Hnd2. rewrite py_eq_dict, andb_true_iff, Nat.eqb_eq, forallb_forall.
  split.
  - intros [Hlen Hsub] k. unfold Spec.same_value.
    destruct (dict_lookup d1 k) as [v|] eqn:H1.
    + apply lookup_Some_In in H1. specialize (Hsub (k, v) H1). simpl in Hsub.
      now destruct (dict_lookup d2 k).
    + destruct (dict_lookup d2 k) as [w|] eqn:H2; [|trivial].
      apply lookup_None_iff in H1. apply H1.
      assert (Hincl : incl (dict_keys d1) (dict_keys d2)).
      { intros k' Hk'. unfold dict_keys in Hk'. apply in_map_iff in Hk'.
        destruct Hk' as [[k'' v'] [<- Hin]]. specialize (Hsub _ Hin). simpl in Hsub.
        destruct (dict_lookup d2 k'') eqn:E; [|discriminate].
        apply lookup_Some_In in E. apply (in_map fst) in E. exact E. }
      apply (NoDup_length_incl Hnd1) in Hincl.
      * apply Hincl. apply lookup_Some_In in H2. change k with (fst (k, w)).
        now apply in_map.
      * unfold dict_keys. rewrite !length_map. now rewrite Hlen.
  - intros Hsame.
    assert (Hkeys : forall k, In k (dict_keys d1) <-> In k (dict_keys d2)).
    { intros k. specialize (Hsame k). unfold Spec.same_value in Hsame.
      destruct (dict_lookup d1 k) eqn:H1, (dict_lookup d2 k) eqn:H2; try contradiction.
      - apply lookup_Some_In in H1, H2. split; intros _.
        + change k with (fst (k, p0)). now apply in_map.
        + change k with (fst (k, p)). now apply in_map.
      - apply lookup_None_iff in H1, H2. tauto. }
    split.
    + assert (L1 := NoDup_incl_length Hnd1 (fun k H => proj1 (Hkeys k) H)).
      assert (L2 := NoDup_incl_length Hnd2 (fun k H => proj2 (Hkeys k) H)).
      unfold dict_keys in L1, L2. rewrite !length_map in L1, L2. lia.
    + intros [k v] Hin. simpl. specialize (Hsame k).
      rewrite (lookup_In d1 k v Hnd1 Hin) in Hsame. simpl in Hsame.
      now destruct (dict_lookup d2 k).
Qed.

(** ** Construction *)

Ltac solve_nodup :=
  repeat (constructor; [simpl; intuition discriminate|]); constructor.

Ltac solve_wf_dict :=
  apply wf_dict_unfold; split; [solve_nodup|repeat constructor].

Section Construction.

Variable json_loads : string -> pyresult pyval.

Lemma init_None :
  LazyI18nString.__init__ json_loads PNone
  = Some (Ok {| LazyI18nString.data := CVal (PDict []) |}).
Proof. reflexivity. Qed.

(** A mapping is stored as it is, falsy values included. *)
Lemma init_mapping (m : dict) :
  NoDup (dict_keys m) ->
  LazyI18nString.__init__ json_loads (PDict m)
  = Some (Ok {| LazyI18nString.data := CVal (PDict m) |}).
Proof.
  intros H. unfold LazyI18nString.__init__, UserDict_init, UserDict_update.
  now rewrite update_mapping_empty.
Qed.

Lemma init_json_object (s : string) (m : dict) :
  json_loads s = Ok (PDict m) -> NoDup (dict_keys m) ->
  LazyI18nString.__init__ json_loads (PStr s)
  = Some (Ok {| LazyI18nString.data := CVal (PDict m) |}).
Proof.
  intros Hs H. unfold LazyI18nString.__init__, UserDict_init, UserDict_update.
  now rewrite Hs, update_mapping_empty.
Qed.

(** A text that is not JSON becomes the naive entry. *)
Lemma init_not_json (s : string) :
  json_loads s = Raise ValueError ->
  LazyI18nString.__init__ json_loads (PStr s)
  = Some (Ok {| LazyI18nString.data := CVal (PDict [("_naive", PStr s)]) |}).
Proof.
  intros Hs. unfold LazyI18nString.__init__. now rewrite Hs.
Qed.

(** A text that is a JSON string raises as well, unless that string is
    empty; [null] and the empty array give the empty mapping. *)
Lemma init_json_string (s : string) (c : ascii) (t : string) :
  json_loads s = Ok (PStr (String c t)) ->
  LazyI18nString.__init__ json_loads (PStr s) = Some (Raise ValueError).
Proof.
  intros Hs. unfold LazyI18nString.__init__. now rewrite Hs.
Qed.

Lemma init_json_null (s : string) :
  json_loads s = Ok PNone ->
  LazyI18nString.__init__ json_loads (PStr s)
  = Some (Ok {| LazyI18nString.data := CVal (PDict []) |}).
Proof.
  intros Hs. unfold LazyI18nString.__init__. now rewrite Hs.
Qed.

End Construction.

(** C3.  A text that parses as a JSON number is handed to [UserDict] as the
    number it denotes: construction raises [TypeError] and stores no naive
    entry. *)
Theorem init_json_number_raises (json_loads : string -> pyresult pyval)
  (s : string) (n : Z) :
  json_loads s = Ok (PInt n) ->
  LazyI18nString.__init__ json_loads (PStr s) = Some (Raise TypeError).
Proof.
  intros Hs. unfold LazyI18nString.__init__. now rewrite Hs.
Qed.

Lemma init_json_number_raises_witness :
  LazyI18nString.__init__ JsonRef.json_loads (PStr "5") = Some (Raise TypeError).
Proof.
  apply (init_json_number_raises JsonRef.json_loads "5" 5). reflexivity.
Defined.

(** ** Equality *)

(** C10.  An instance constructed from a mapping compares equal to that
    plain mapping. *)
Theorem eq_plain_mapping (json_loads : string -> pyresult pyval) (m : dict) :
  wf_dict m ->
  exists self,
    LazyI18nString.__init__ json_loads (PDict m) = Some (Ok self)
    /\ LazyI18nString.__eq__ self (LazyI18nString.Plain (CVal (PDict m)))
       = Ok (LazyI18nString.of_bool true).
Proof.
  intros Hwf. eexists. split.
  - apply init_mapping. now apply wf_dict_unfold in Hwf.
  - unfold LazyI18nString.__eq__, LazyI18nString.hasattr.
    cbn [LazyI18nString.is_None LazyI18nString.getattr LazyI18nString.equals
         LazyI18nString.data content_eq].
    now rewrite py_eq_refl.
Qed.

Lemma eq_plain_mapping_witness :
  exists self,
    LazyI18nString.__init__ JsonRef.json_loads
      (PDict [("de", PStr "Hallo"); ("en", PStr ""); ("fr", PStr "Bonjour")])
    = Some (Ok self)
    /\ LazyI18nString.__eq__ self
         (LazyI18nString.Plain
            (CVal (PDict [("de", PStr "Hallo"); ("en", PStr ""); ("fr", PStr "Bonjour")])))
       = Ok (LazyI18nString.of_bool true).
Proof.
  apply (eq_plain_mapping JsonRef.json_loads
           [("de", PStr "Hallo"); ("en", PStr ""); ("fr", PStr "Bonjour")]).
  solve_wf_dict.
Defined.

(** What [hasattr(other, 'data')] answers, by the attribute of the operand. *)
Lemma hasattr_data_cases (other : LazyI18nString.pyobj) :
  match LazyI18nString.getattr other "data" with
  | Ok _ => LazyI18nString.hasattr other "data" = Ok true
  | Raise AttributeError => LazyI18nString.hasattr other "data" = Ok false
  | Raise e => LazyI18nString.hasattr other "data" = Raise e
  end.
Proof.
  unfold LazyI18nString.hasattr.
  destruct (LazyI18nString.getattr other "data") as [x|e]; [reflexivity|].
  now destruct e.
Qed.

(** C8, as the claim states it, fails in three ways.  An object that is
    neither an instance nor a mapping compares equal when it has a [data]
    attribute equal to the backing mapping, and when it has no such attribute
    but an [__eq__] of its own that returns [True]; and the comparison raises
    when reading its [data] raises anything but [AttributeError]. *)
Lemma eq_foreign_data_counterexample :
  Spec.incompatible Example.lookalike = true
  /\ LazyI18nString.__eq__
       {| LazyI18nString.data := CVal (PDict [("de", PStr "Hallo")]) |}
       Example.lookalike
     = Ok (LazyI18nString.of_bool true)
  /\ Spec.incompatible Example.ANY = true
  /\ LazyI18nString.__eq__
       {| LazyI18nString.data := CVal (PDict [("de", PStr "Hallo")]) |}
       Example.ANY
     = Ok (LazyI18nString.of_bool true)
  /\ Spec.incompatible Example.broken = true
  /\ LazyI18nString.__eq__
       {| LazyI18nString.data := CVal (PDict [("de", PStr "Hallo")]) |}
       Example.broken
     = Raise ValueError.
Proof. repeat split. Qed.

(** C8, amended.  Two mapping-backed instances compare equal exactly when
    their mappings are equal, and comparing with [None] gives false; neither
    raises.  For an object that is neither an instance nor a mapping:
    the comparison gives false, and does not raise, when the object has no
    [data] attribute and leaves equality as [object] defines it, which
    covers every built-in value and every proxy; when it has a [data]
    attribute, the comparison is that of the mapping with the attribute, so
    for an attribute that holds a value or proxy it gives whether that is
    equal to the mapping, and does not raise; when reading its [data] raises
    anything but [AttributeError], the comparison raises the same; and when
    it has no [data] attribute, its own [__eq__], called with the mapping,
    decides: what that returns is the result, what that raises is raised,
    and false is the result when that returns [NotImplemented]. *)
Theorem eq_by_backing_content (d1 d2 : dict) (other : LazyI18nString.pyobj) :
  NoDup (dict_keys d1) -> NoDup (dict_keys d2) ->
  Spec.incompatible other = true ->
  (exists b,
      LazyI18nString.__eq__ {| LazyI18nString.data := CVal (PDict d1) |}
        (LazyI18nString.Instance {| LazyI18nString.data := CVal (PDict d2) |})
      = Ok (LazyI18nString.of_bool b)
      /\ (b = true <-> Spec.same_mapping d1 d2))
  /\ LazyI18nString.__eq__ {| LazyI18nString.data := CVal (PDict d1) |}
       (LazyI18nString.Plain (CVal PNone))
     = Ok (LazyI18nString.of_bool false)
  /\ (LazyI18nString.hasattr other "data" = Ok false ->
      Spec.default_equality other ->
      LazyI18nString.__eq__ {| LazyI18nString.data := CVal (PDict d1) |} other
      = Ok (LazyI18nString.of_bool false))
  /\ (forall x,
        LazyI18nString.getattr other "data" = Ok x ->
        LazyI18nString.__eq__ {| LazyI18nString.data := CVal (PDict d1) |} other
        = LazyI18nString.equals (CVal (PDict d1)) x)
  /\ (forall c,
        LazyI18nString.getattr other "data" = Ok (LazyI18nString.Plain c) ->
        LazyI18nString.__eq__ {| LazyI18nString.data := CVal (PDict d1) |} other
        = Ok (LazyI18nString.of_bool (content_eq (CVal (PDict d1)) c)))
  /\ (forall e,
        LazyI18nString.getattr other "data" = Raise e -> e <> AttributeError ->
        LazyI18nString.__eq__ {| LazyI18nString.data := CVal (PDict d1) |} other
        = Raise e)
  /\ (forall oid attrs eq,
        other = LazyI18nString.Foreign oid attrs eq ->
        LazyI18nString.hasattr other "data" = Ok false ->
        LazyI18nString.__eq__ {| LazyI18nString.data := CVal (PDict d1) |} other
        = match eq (CVal (PDict d1)) with
          | LazyI18nString.Returns v => Ok v
          | LazyI18nString.NotImplemented => Ok (LazyI18nString.of_bool false)
          | LazyI18nString.Throws e => Raise e
          end).
Proof.
  intros Hnd1 Hnd2 Hinc.
  assert (Hnone : LazyI18nString.is_None other = true -> other = LazyI18nString.Plain (CVal PNone)).
  { destruct other as [[[]|]| |]; try discriminate. reflexivity. }
  assert (Hattr : forall x,
             LazyI18nString.getattr other "data" = Ok x ->
             LazyI18nString.__eq__ {| LazyI18nString.data := CVal (PDict d1) |} other
             = LazyI18nString.equals (CVal (PDict d1)) x).
  { intros x Hget. unfold LazyI18nString.__eq__.
    pose proof (hasattr_data_cases other) as Hhas. rewrite Hget in Hhas.
    rewrite Hhas, Hget.
    destruct (LazyI18nString.is_None other) eqn:E; [|reflexivity].
    specialize (Hnone eq_refl). subst other. discriminate. }
  split; [|split; [|split; [|split; [|split; [|split]]]]].
  - exists (py_eq (PDict d1) (PDict d2)). split.
    + reflexivity.
    + now apply py_eq_dict_same_mapping.
  - reflexivity.
  - intros Hhas Hdef. unfold LazyI18nString.__eq__. rewrite Hhas.
    destruct other as [c|i|oid attrs eq]; [| discriminate |].
    + destruct c as [v|p]; [|reflexivity].
      destruct v; try reflexivity. discriminate.
    + cbn [LazyI18nString.is_None LazyI18nString.equals]. cbn in Hdef.
      now rewrite Hdef.
  - exact Hattr.
  - intros c Hget. now rewrite (Hattr _ Hget).
  - intros e Hget Hne. unfold LazyI18nString.__eq__.
    pose proof (hasattr_data_cases other) as Hhas. rewrite Hget in Hhas.
    destruct (LazyI18nString.is_None other) eqn:E.
    + specialize (Hnone eq_refl). subst other. cbn in Hget.
      injection Hget as <-. now contradiction Hne.
    + destruct e; try (now rewrite Hhas); now contradiction Hne.
  - intros oid attrs eq -> Hhas. unfold LazyI18nString.__eq__. rewrite Hhas.
    reflexivity.
Qed.

Lemma eq_by_backing_content_witness :
  (exists b,
      LazyI18nString.__eq__
        {| LazyI18nString.data := CVal (PDict [("de", PStr "Hallo"); ("en", PStr "Hello")]) |}
        (LazyI18nString.Instance
           {| LazyI18nString.data :=
                CVal (PDict [("en", PStr "Hello"); ("de", PStr "Hallo")]) |})
      = Ok (LazyI18nString.of_bool b)
      /\ (b = true <-> Spec.same_mapping [("de", PStr "Hallo"); ("en", PStr "Hello")]
                         [("en", PStr "Hello"); ("de", PStr "Hallo")]))
  /\ LazyI18nString.__eq__
       {| LazyI18nString.data := CVal (PDict [("de", PStr "Hallo"); ("en", PStr "Hello")]) |}
       (LazyI18nString.Plain (CVal PNone))
     = Ok (LazyI18nString.of_bool false)
  /\ (LazyI18nString.hasattr Example.ANY "data" = Ok false ->
      Spec.default_equality Example.ANY ->
      LazyI18nString.__eq__
        {| LazyI18nString.data := CVal (PDict [("de", PStr "Hallo"); ("en", PStr "Hello")]) |}
        Example.ANY
      = Ok (LazyI18nString.of_bool false))
  /\ (forall x,
        LazyI18nString.getattr Example.ANY "data" = Ok x ->
        LazyI18nString.__eq__
          {| LazyI18nString.data := CVal (PDict [("de", PStr "Hallo"); ("en", PStr "Hello")]) |}
          Example.ANY
        = LazyI18nString.equals
            (CVal (PDict [("de", PStr "Hallo"); ("en", PStr "Hello")])) x)
  /\ (forall c,
        LazyI18nString.getattr Example.ANY "data" = Ok (LazyI18nString.Plain c) ->
        LazyI18nString.__eq__
          {| LazyI18nString.data := CVal (PDict [("de", PStr "Hallo"); ("en", PStr "Hello")]) |}
          Example.ANY
        = Ok (LazyI18nString.of_bool
                (content_eq (CVal (PDict [("de", PStr "Hallo"); ("en", PStr "Hello")])) c)))
  /\ (forall e,
        LazyI18nString.getattr Example.ANY "data" = Raise e -> e <> AttributeError ->
        LazyI18nString.__eq__
          {| LazyI18nString.data := CVal (PDict [("de", PStr "Hallo"); ("en", PStr "Hello")]) |}
          Example.ANY
        = Raise e)
  /\ (forall oid attrs eq,
        Example.ANY = LazyI18nString.Foreign oid attrs eq ->
        LazyI18nString.hasattr Example.ANY "data" = Ok false ->
        LazyI18nString.__eq__
          {| LazyI18nString.data := CVal (PDict [("de", PStr "Hallo"); ("en", PStr "Hello")]) |}
          Example.ANY
        = match eq (CVal (PDict [("de", PStr "Hallo"); ("en", PStr "Hello")])) with
          | LazyI18nString.Returns v => Ok v
          | LazyI18nString.NotImplemented => Ok (LazyI18nString.of_bool false)
          | LazyI18nString.Throws e => Raise e
          end).
Proof.
  apply (eq_by_backing_content [("de", PStr "Hallo"); ("en", PStr "Hello")]
           [("en", PStr "Hello"); ("de", PStr "Hallo")] Example.ANY).
  - solve_nodup.
  - solve_nodup.
  - reflexivity.
Defined.

(** ** Sorting the members of an object *)

Lemma ltb_trans (a b c : string) :
  (a <? b)%string = true -> (b <? c)%string = true -> (a <? c)%string = true.
Proof.
  unfold String.ltb. intros Hab Hbc.
  destruct (a ?= b)%string eqn:E1; try discriminate.
  destruct (b ?= c)%string eqn:E2; try discriminate.
  apply String_as_OT.cmp_lt in E1, E2.
  assert (E3 := String_as_OT.lt_trans _ _ _ E1 E2).
  apply String_as_OT.cmp_lt in E3. unfold String_as_OT.cmp in E3. now rewrite E3.
Qed.

Lemma leb_neq_ltb (a b : string) :
  (a <=? b)%string = true -> a <> b -> (a <? b)%string = true.
Proof.
  unfold String.leb, String.ltb. intros H Hne.
  destruct (a ?= b)%string eqn:E; try reflexivity; try discriminate.
  apply String.compare_eq_iff in E. contradiction.
Qed.

Section SortItems.

Context {A : Type}.

Let le_key (x y : string * A) : Prop := (fst x <=? fst y)%string = true.
Let lt_key (x y : string * A) : Prop := (fst x <? fst y)%string = true.

Lemma insert_item_perm (x : string * A) (l : list (string * A)) :
  Permutation (x :: l) (Json.insert_item x l).
Proof.
  induction l as [|y l IH]; simpl; [reflexivity|].
  destruct (fst x <=? fst y)%string; [reflexivity|].
  rewrite perm_swap. now constructor.
Qed.

Lemma sort_items_perm (l : list (string * A)) : Permutation l (Json.sort_items l).
Proof.
  induction l as [|x l IH]; simpl; [constructor|].
  rewrite <- insert_item_perm. now constructor.
Qed.

Lemma insert_item_sorted (x : string * A) (l : list (string * A)) :
  Sorted le_key l -> Sorted le_key (Json.insert_item x l).
Proof.
  induction 1 as [|y l Hs IH Hhd]; simpl.
  - repeat constructor.
  - destruct (fst x <=? fst y)%string eqn:E.
    + constructor; [now constructor|]. now constructor.
    + constructor; [exact IH|].
      assert (Hyx : le_key y x).
      { unfold le_key. destruct (String.leb_total (fst x) (fst y)) as [H|H];
          [congruence|exact H]. }
      destruct l as [|z l]; simpl; [now constructor|].
      destruct (fst x <=? fst z)%string; constructor; [exact Hyx|].
      now inversion Hhd.
Qed.

Lemma sort_items_sorted (l : list (string * A)) : Sorted le_key (Json.sort_items l).
Proof.
  induction l as [|x l IH]; simpl; [constructor|]. now apply insert_item_sorted.
Qed.

Lemma sorted_strict (l : list (string * A)) :
  Sorted le_key l -> NoDup (map fst l) -> Sorted lt_key l.
Proof.
  induction 1 as [|x l Hs IH Hhd]; intros Hnd; [constructor|].
  simpl in Hnd. inversion Hnd as [|? ? Hnotin Hnd']; subst.
  constructor; [now apply IH|].
  destruct l as [|y l]; constructor.
  apply leb_neq_ltb; [now inversion Hhd|].
  intros E. apply Hnotin. simpl. now left.
Qed.

(** The sorted members have their keys strictly increasing when no key
    occurs twice. *)
Lemma sort_items_keys_sorted (l : list (string * A)) :
  NoDup (map fst l) -> Spec.keys_sorted (Json.sort_items l).
Proof.
  intros Hnd. unfold Spec.keys_sorted. apply Sorted_StronglySorted.
  - intros x y z. apply ltb_trans.
  - apply sorted_strict; [apply sort_items_sorted|].
    eapply Permutation_NoDup; [|exact Hnd]. apply Permutation_map, sort_items_perm.
Qed.

End SortItems.

Lemma insert_item_map {A B : Type} (f : A -> B) (x : string * A) (l : list (string * A)) :
  Json.insert_item (fst x, f (snd x)) (map (fun kv => (fst kv, f (snd kv))) l)
  = map (fun kv => (fst kv, f (snd kv))) (Json.insert_item x l).
Proof.
  induction l as [|y l IH]; simpl; [reflexivity|].
  destruct (fst x <=? fst y)%string; simpl; [reflexivity|]. now rewrite IH.
Qed.

(** Sorting looks at the keys only. *)
Lemma sort_items_map {A B : Type} (f : A -> B) (l : list (string * A)) :
  Json.sort_items (map (fun kv => (fst kv, f (snd kv))) l)
  = map (fun kv => (fst kv, f (snd kv))) (Json.sort_items l).
Proof.
  induction l as [|x l IH]; simpl; [reflexivity|]. now rewrite IH, insert_item_map.
Qed.

(** ** Serialization *)

Section Serialization.

Variable encode_basestring_ascii : string -> string.

Local Abbreviation dumps := (Json.dumps encode_basestring_ascii).
Local Abbreviation json_object := (Json.json_object encode_basestring_ascii).

Local Abbreviation member_of sort_keys :=
  (fun kv : string * pyval => (fst kv, dumps sort_keys (snd kv))).

Lemma dumps_dict (sort_keys : bool) (items : dict) :
  dumps sort_keys (PDict items) =
  json_object (if sort_keys then Json.sort_items (map (member_of sort_keys) items)
               else map (member_of sort_keys) items).
Proof.
  cbn [Json.dumps].
  match goal with
  | |- context [if _ then Json.sort_items (?f items) else _] =>
      assert (E : f items = map (member_of sort_keys) items)
  end.
  { induction items as [|[k v] items IH]; [reflexivity|]. now rewrite IH. }
  now rewrite E.
Qed.

Lemma dumps_list (sort_keys : bool) (xs : list pyval) :
  dumps sort_keys (PList xs) = Json.json_array (map (dumps sort_keys) xs).
Proof. reflexivity. Qed.

Lemma sort_keys_dict (items : dict) :
  Json.sort_keys (PDict items) =
  PDict (Json.sort_items (map (fun kv => (fst kv, Json.sort_keys (snd kv))) items)).
Proof.
  cbn [Json.sort_keys]. do 2 f_equal.
  induction items as [|[k v] items IH]; [reflexivity|]. now rewrite IH.
Qed.

Lemma sort_keys_list (xs : list pyval) :
  Json.sort_keys (PList xs) = PList (map Json.sort_keys xs).
Proof. reflexivity. Qed.

(** Writing with [sort_keys] is writing the sorted value as it stands. *)
Lemma dumps_sort_keys (v : pyval) : dumps true v = dumps false (Json.sort_keys v).
Proof.
  induction v as [| b | n | s | xs IH | items IH] using pyval_induction;
    try reflexivity.
  - rewrite sort_keys_list, !dumps_list, map_map. f_equal.
    apply map_ext_in. intros x Hx. rewrite Forall_forall in IH. now apply IH.
  - rewrite sort_keys_dict, !dumps_dict. f_equal.
    rewrite (sort_items_map Json.sort_keys items).
    rewrite map_map. cbn [fst snd].
    rewrite <- (sort_items_map (fun v => dumps false (Json.sort_keys v)) items).
    f_equal. apply map_ext_in. intros [k v] Hin. simpl. f_equal.
    rewrite Forall_forall in IH. now apply (IH (k, v)).
Qed.

Lemma lookup_perm (d d' : dict) (k : string) :
  NoDup (dict_keys d) -> Permutation d d' -> dict_lookup d' k = dict_lookup d k.
Proof.
  intros Hnd Hp.
  assert (Hnd' : NoDup (dict_keys d')).
  { eapply Permutation_NoDup; [|exact Hnd]. now apply Permutation_map. }
  destruct (dict_lookup d k) as [v|] eqn:E.
  - apply lookup_In; [exact Hnd'|]. eapply Permutation_in; [exact Hp|].
    now apply lookup_Some_In.
  - apply lookup_None_iff. apply lookup_None_iff in E. intros H. apply E.
    eapply Permutation_in; [|exact H]. apply Permutation_map. now symmetry.
Qed.

(** The text of a dictionary under [sort_keys] is the object whose members
    go up by key and are the entries of the dictionary. *)
Lemma dumps_sorted_members (items : dict) :
  NoDup (dict_keys items) ->
  exists members,
    dumps true (PDict items) = json_object members
    /\ Spec.keys_sorted members
    /\ forall k r, In (k, r) members <->
                   exists v, dict_lookup items k = Some v /\ r = dumps true v.
Proof.
  intros Hnd. exists (Json.sort_items (map (member_of true) items)).
  split; [apply dumps_dict|]. split.
  - apply sort_items_keys_sorted. rewrite map_map. exact Hnd.
  - intros k r. split.
    + intros Hin. apply (Permutation_in _ (Permutation_sym (sort_items_perm _))) in Hin.
      apply in_map_iff in Hin. destruct Hin as [[k' v] [[= <- <-] Hin]].
      exists v. split; [now apply lookup_In|reflexivity].
    + intros [v [Hl ->]]. apply (Permutation_in _ (sort_items_perm _)).
      apply lookup_Some_In in Hl. now apply (in_map (member_of true)) in Hl.
Qed.

End Serialization.

Lemma truthy_items_from (acc items : dict) :
  NoDup (dict_keys (acc ++ items)) ->
  fold_left
    (fun acc kv => if truthy (snd kv) then dict_setitem acc (fst kv) (snd kv) else acc)
    items acc
  = acc ++ filter (fun kv => truthy (snd kv)) items.
Proof.
  revert acc. induction items as [|[k v] items IH]; intros acc Hnd; simpl.
  - now rewrite app_nil_r.
  - assert (Hk : ~ In k (dict_keys acc)).
    { unfold dict_keys in *. rewrite map_app in Hnd. simpl in Hnd.
      apply NoDup_remove_2 in Hnd. intros H. apply Hnd. apply in_or_app. now left. }
    destruct (truthy v).
    + rewrite setitem_notin by exact Hk. rewrite IH.
      * now rewrite <- app_assoc.
      * now rewrite <- app_assoc.
    + apply IH. unfold dict_keys in *. rewrite map_app in *. simpl in Hnd.
      now apply NoDup_remove_1 in Hnd.
Qed.

(** The comprehension keeps the entries with a truthy value, in order. *)
Lemma truthy_items_filter (d : dict) :
  NoDup (dict_keys d) ->
  I18nField.truthy_items d = filter (fun kv => truthy (snd kv)) d.
Proof.
  intros Hnd. unfold I18nField.truthy_items. now rewrite truthy_items_from.
Qed.

Lemma filter_keys_nodup (d : dict) (f : string * pyval -> bool) :
  NoDup (dict_keys d) -> NoDup (dict_keys (filter f d)).
Proof.
  induction d as [|kv d IH]; simpl; intros Hnd; [constructor|].
  inversion Hnd as [|? ? Hnotin Hnd']; subst.
  destruct (f kv); simpl; [|now apply IH].
  constructor; [|now apply IH]. intros Hin. apply Hnotin.
  unfold dict_keys in *. apply in_map_iff in Hin. destruct Hin as [x [Hx Hin]].
  apply filter_In in Hin. apply in_map_iff. exists x. tauto.
Qed.

Lemma truthy_items_nodup (d : dict) :
  NoDup (dict_keys d) -> NoDup (dict_keys (I18nField.truthy_items d)).
Proof.
  intros Hnd. rewrite truthy_items_filter by exact Hnd. now apply filter_keys_nodup.
Qed.

Lemma truthy_items_lookup (d : dict) (k : string) :
  NoDup (dict_keys d) ->
  dict_lookup (I18nField.truthy_items d) k = Spec.truthy_at d k.
Proof.
  intros Hnd. rewrite truthy_items_filter by exact Hnd. unfold Spec.truthy_at.
  induction d as [|[k' v] d IH]; simpl; [reflexivity|].
  inversion Hnd as [|? ? Hnotin Hnd']; subst.
  destruct (k' =? k) eqn:E.
  - apply String.eqb_eq in E. subst k'. destruct (truthy v) eqn:Hv; simpl.
    + now rewrite String.eqb_refl.
    + apply lookup_None_iff. intros Hin. apply Hnotin.
      unfold dict_keys in *. apply in_map_iff in Hin. destruct Hin as [x [Hx Hin]].
      apply filter_In in Hin. apply in_map_iff. exists x. tauto.
  - destruct (truthy v); simpl; [rewrite E|]; now apply IH.
Qed.


Lemma lookup_setitem (d : dict) (k k' : string) (v : pyval) :
  dict_lookup (dict_setitem d k v) k' =
  if k =? k' then Some v else dict_lookup d k'.
Proof.
  induction d as [|[k0 v0] d IH]; simpl; [reflexivity|].
  destruct (k0 =? k) eqn:E0; simpl.
  - apply String.eqb_eq in E0. subst k0. now destruct (k =? k').
  - rewrite IH. destruct (k0 =? k') eqn:E1; [|reflexivity].
    apply String.eqb_eq in E1. subst k0. now rewrite String.eqb_sym, E0.
Qed.

Lemma setitem_keys_nodup (d : dict) (k : string) (v : pyval) :
  NoDup (dict_keys d) -> NoDup (dict_keys (dict_setitem d k v)).
Proof.
  induction d as [|[k0 v0] d IH]; simpl; intros Hnd.
  - constructor; [intros []|constructor].
  - inversion Hnd as [|? ? Hnotin Hnd']; subst.
    destruct (k0 =? k) eqn:E0; simpl; [now constructor|].
    constructor; [|now apply IH].
    intros Hin. apply lookup_None_iff in Hnotin.
    assert (Hl : dict_lookup (dict_setitem d k v) k0 <> None).
    { intros Hn. now apply lookup_None_iff in Hn. }
    rewrite lookup_setitem, String.eqb_sym, E0 in Hl. contradiction.
Qed.

Section Deferred.

Variable encode_basestring_ascii : string -> string.
Variable gettext : Translation.lang -> string -> pyresult string.

Local Abbreviation rendered_items := (I18nField.rendered_items gettext).

(** The comprehension over the supported locales keeps, for every locale
    whose rendering is truthy, that rendering, and threads the active locale
    through unchanged. *)
Lemma rendered_items_run (value : LazyGettextProxy.t) (languages : list (string * string))
  (acc : dict) (st : Translation.lang) :
  (forall lng, In lng (map fst languages) ->
               exists s, gettext (Some lng) (LazyGettextProxy.lazygettext value) = Ok s) ->
  NoDup (dict_keys acc) ->
  exists items,
    rendered_items value languages acc st = (Ok items, st)
    /\ NoDup (dict_keys items)
    /\ forall k,
        dict_lookup items k =
        match (if existsb (String.eqb k) (map fst languages)
               then Spec.rendering gettext (LazyGettextProxy.lazygettext value) k
               else None) with
        | Some v => Some v
        | None => dict_lookup acc k
        end.
Proof.
  revert acc. induction languages as [|[lng lngname] languages IH]; intros acc Hok Hnd.
  - exists acc. split; [reflexivity|split; [exact Hnd|]]. intros k. reflexivity.
  - destruct (Hok lng (or_introl eq_refl)) as [s Hs].
    assert (Hok' : forall l, In l (map fst languages) ->
                     exists s, gettext (Some l) (LazyGettextProxy.lazygettext value) = Ok s).
    { intros l Hl. apply Hok. now right. }
    cbn [I18nField.rendered_items]. unfold Translation.bind at 1.
    rewrite getitem_run, Hs.
    destruct (truthy (PStr s)) eqn:Ht.
    + unfold Translation.bind at 1. rewrite getitem_run, Hs.
      destruct (IH (dict_setitem acc lng (PStr s)) Hok' (setitem_keys_nodup _ _ _ Hnd))
        as [items [Hrun [Hnd' Hlook]]].
      exists items. split; [exact Hrun|split; [exact Hnd'|]].
      intros k. rewrite Hlook, lookup_setitem. cbn [map fst existsb].
      destruct (k =? lng) eqn:E.
      * apply String.eqb_eq in E. subst k. rewrite String.eqb_refl. simpl.
        unfold Spec.rendering. rewrite Hs, Ht.
        now destruct (existsb (String.eqb lng) (map fst languages)).
      * rewrite String.eqb_sym, E. reflexivity.
    + destruct (IH acc Hok' Hnd) as [items [Hrun [Hnd' Hlook]]].
      exists items. split; [exact Hrun|split; [exact Hnd'|]].
      intros k. rewrite Hlook. cbn [map fst existsb].
      destruct (k =? lng) eqn:E; [|reflexivity].
      apply String.eqb_eq in E. subst k. simpl.
      unfold Spec.rendering. rewrite Hs, Ht.
      now destruct (existsb (String.eqb lng) (map fst languages)).
Qed.

End Deferred.

Lemma truthy_at_Some (d : dict) (k : string) (v : pyval) :
  Spec.truthy_at d k = Some v <-> dict_lookup d k = Some v /\ truthy v = true.
Proof.
  unfold Spec.truthy_at. destruct (dict_lookup d k) as [w|].
  - destruct (truthy w) eqn:Hw; split.
    + intros [= <-]. now split.
    + now intros [[= <-] _].
    + discriminate.
    + intros [[= <-] H]. congruence.
  - split; [discriminate|]. now intros [H _].
Qed.

Lemma existsb_eqb_In (k : string) (l : list string) :
  existsb (String.eqb k) l = true <-> In k l.
Proof.
  rewrite existsb_exists. split.
  - intros [x [Hin E]]. apply String.eqb_eq in E. now subst.
  - intros H. exists k. split; [exact H|apply String.eqb_refl].
Qed.

Lemma rendering_Some (gettext : Translation.lang -> string -> pyresult string)
  (message k : string) (v : pyval) :
  Spec.rendering gettext message k = Some v <->
  exists s, gettext (Some k) message = Ok s /\ s <> "" /\ v = PStr s.
Proof.
  unfold Spec.rendering. destruct (gettext (Some k) message) as [s|e].
  - simpl. destruct (s =? "") eqn:E; simpl; split.
    + discriminate.
    + intros [s' [[= <-] [Hne _]]]. apply String.eqb_eq in E. contradiction.
    + intros [= <-]. exists s. apply String.eqb_neq in E. now repeat split.
    + now intros [s' [[= <-] [_ ->]]].
  - split; [discriminate|]. now intros [s [H _]].
Qed.

(** C5.  Serializing a mapping-backed value gives the JSON object whose
    members are exactly the entries with a truthy value, with keys going up;
    serializing a proxy-backed value gives the JSON object with one member
    for each supported locale whose rendering is a truthy text, mapped to
    that rendering, with keys going up.  The active locale is unchanged. *)
Theorem get_prep_value_sorted_truthy (encode_basestring_ascii : string -> string)
  (gettext : Translation.lang -> string -> pyresult string)
  (LANGUAGES : list (string * string))
  (d : dict) (p : LazyGettextProxy.t) (st : Translation.lang) :
  NoDup (dict_keys d) ->
  (forall lng, In lng (map fst LANGUAGES) ->
               exists s, gettext (Some lng) (LazyGettextProxy.lazygettext p) = Ok s) ->
  (exists members,
      I18nField.get_prep_value encode_basestring_ascii gettext LANGUAGES
        (LazyI18nString.Instance {| LazyI18nString.data := CVal (PDict d) |}) st
      = (Ok (LazyI18nString.Plain
               (CVal (PStr (Json.json_object encode_basestring_ascii members)))), st)
      /\ Spec.keys_sorted members
      /\ forall k r,
          In (k, r) members <->
          exists v, dict_lookup d k = Some v /\ truthy v = true
                    /\ r = Json.dumps encode_basestring_ascii true v)
  /\ (exists members,
      I18nField.get_prep_value encode_basestring_ascii gettext LANGUAGES
        (LazyI18nString.Instance {| LazyI18nString.data := CProxy p |}) st
      = (Ok (LazyI18nString.Plain
               (CVal (PStr (Json.json_object encode_basestring_ascii members)))), st)
      /\ Spec.keys_sorted members
      /\ forall k r,
          In (k, r) members <->
          In k (map fst LANGUAGES)
          /\ exists s, gettext (Some k) (LazyGettextProxy.lazygettext p) = Ok s
                       /\ s <> "" /\ r = encode_basestring_ascii s).
Proof.
  intros Hnd Hok. split.
  - destruct (dumps_sorted_members encode_basestring_ascii (I18nField.truthy_items d)
                (truthy_items_nodup d Hnd)) as [members [Htext [Hsorted Hin]]].
    exists members. split; [|split; [exact Hsorted|]].
    + unfold I18nField.get_prep_value, Translation.ret. cbn [LazyI18nString.data].
      now rewrite Htext.
    + intros k r. rewrite Hin. split.
      * intros [v [Hl ->]]. rewrite truthy_items_lookup in Hl by exact Hnd.
        apply truthy_at_Some in Hl. exists v. tauto.
      * intros [v [Hl [Hv ->]]]. exists v. split; [|reflexivity].
        rewrite truthy_items_lookup by exact Hnd. apply truthy_at_Some. now split.
  - destruct (rendered_items_run gettext p LANGUAGES [] st Hok (NoDup_nil _))
      as [items [Hrun [Hnd' Hlook]]].
    destruct (dumps_sorted_members encode_basestring_ascii items Hnd')
      as [members [Htext [Hsorted Hin]]].
    exists members. split; [|split; [exact Hsorted|]].
    + unfold I18nField.get_prep_value, Translation.ret, Translation.bind.
      cbn [LazyI18nString.data]. now rewrite Hrun, Htext.
    + intros k r. rewrite Hin. split.
      * intros [v [Hl ->]]. rewrite Hlook in Hl. simpl in Hl.
        destruct (existsb (String.eqb k) (map fst LANGUAGES)) eqn:E; [|discriminate].
        apply existsb_eqb_In in E. split; [exact E|].
        destruct (Spec.rendering gettext (LazyGettextProxy.lazygettext p) k) as [w|] eqn:Hr;
          [|discriminate].
        injection Hl as <-. apply rendering_Some in Hr.
        destruct Hr as [s [Hs [Hne ->]]]. exists s. now repeat split.
      * intros [Hk [s [Hs [Hne ->]]]]. exists (PStr s). split; [|reflexivity].
        rewrite Hlook. apply existsb_eqb_In in Hk. rewrite Hk.
        assert (Hr : Spec.rendering gettext (LazyGettextProxy.lazygettext p) k
                     = Some (PStr s)).
        { apply rendering_Some. exists s. now repeat split. }
        now rewrite Hr.
Qed.

Lemma get_prep_value_sorted_truthy_witness :
  (exists members,
      I18nField.get_prep_value JsonRef.encode_basestring_ascii Example.gettext
        Example.LANGUAGES
        (LazyI18nString.Instance {| LazyI18nString.data := CVal (PDict Example.greeting) |})
        (Some "fr")
      = (Ok (LazyI18nString.Plain
               (CVal (PStr (Json.json_object JsonRef.encode_basestring_ascii members)))),
         Some "fr")
      /\ Spec.keys_sorted members
      /\ forall k r,
          In (k, r) members <->
          exists v, dict_lookup Example.greeting k = Some v /\ truthy v = true
                    /\ r = Json.dumps JsonRef.encode_basestring_ascii true v)
  /\ (exists members,
      I18nField.get_prep_value JsonRef.encode_basestring_ascii Example.gettext
        Example.LANGUAGES
        (LazyI18nString.Instance {| LazyI18nString.data := CProxy Example.hello |})
        (Some "fr")
      = (Ok (LazyI18nString.Plain
               (CVal (PStr (Json.json_object JsonRef.encode_basestring_ascii members)))),
         Some "fr")
      /\ Spec.keys_sorted members
      /\ forall k r,
          In (k, r) members <->
          In k (map fst Example.LANGUAGES)
          /\ exists s, Example.gettext (Some k) (LazyGettextProxy.lazygettext Example.hello)
                       = Ok s
                       /\ s <> "" /\ r = JsonRef.encode_basestring_ascii s).
Proof.
  apply (get_prep_value_sorted_truthy JsonRef.encode_basestring_ascii Example.gettext
           Example.LANGUAGES Example.greeting Example.hello (Some "fr")).
  - unfold Example.greeting. solve_nodup.
  - intros lng H. simpl in H. destruct H as [<-|[<-|[<-|[]]]]; eexists; reflexivity.
Defined.

(** The stored text of the sample mapping and of the sample message. *)
Lemma get_prep_value_greeting :
  I18nField.get_prep_value JsonRef.encode_basestring_ascii Example.gettext
    Example.LANGUAGES
    (LazyI18nString.Instance {| LazyI18nString.data := CVal (PDict Example.greeting) |})
    None
  = (Ok (LazyI18nString.Plain
           (CVal (PStr ("{" ++ JsonRef.dq ++ "de" ++ JsonRef.dq ++ ": "
                            ++ JsonRef.dq ++ "Hallo" ++ JsonRef.dq ++ ", "
                            ++ JsonRef.dq ++ "fr" ++ JsonRef.dq ++ ": "
                            ++ JsonRef.dq ++ "Bonjour" ++ JsonRef.dq ++ "}")%string))),
     None).
Proof. reflexivity. Qed.

Lemma get_prep_value_hello :
  I18nField.get_prep_value JsonRef.encode_basestring_ascii Example.gettext
    Example.LANGUAGES
    (LazyI18nString.Instance {| LazyI18nString.data := CProxy Example.hello |})
    (Some "fr")
  = (Ok (LazyI18nString.Plain
           (CVal (PStr ("{" ++ JsonRef.dq ++ "de" ++ JsonRef.dq ++ ": "
                            ++ JsonRef.dq ++ "Hallo" ++ JsonRef.dq ++ ", "
                            ++ JsonRef.dq ++ "en" ++ JsonRef.dq ++ ": "
                            ++ JsonRef.dq ++ "Hello" ++ JsonRef.dq ++ "}")%string))),
     Some "fr").
Proof. reflexivity. Qed.

(** ** Round trip *)

Lemma lookup_map_values (f : pyval -> pyval) (d : dict) (k : string) :
  dict_lookup (map (fun kv => (fst kv, f (snd kv))) d) k
  = option_map f (dict_lookup d k).
Proof.
  induction d as [|[k' v] d IH]; simpl; [reflexivity|].
  now destruct (k' =? k).
Qed.

Lemma sort_items_length {A : Type} (l : list (string * A)) :
  List.length (Json.sort_items l) = List.length l.
Proof.
  symmetry. apply Permutation_length, sort_items_perm.
Qed.

Lemma truthy_sort_keys (v : pyval) : truthy (Json.sort_keys v) = truthy v.
Proof.
  destruct v as [| b | n | s | xs | items]; try reflexivity.
  - rewrite sort_keys_list. now destruct xs.
  - rewrite sort_keys_dict. simpl.
    assert (H := sort_items_length
                   (map (fun kv => (fst kv, Json.sort_keys (snd kv))) items)).
    rewrite length_map in H.
    destruct items, (Json.sort_items _); simpl in H; try reflexivity; discriminate.
Qed.

Lemma py_eq_list_map (f : pyval -> pyval) (xs : list pyval) :
  Forall (fun x => py_eq x (f x) = true) xs ->
  py_eq (PList xs) (PList (map f xs)) = true.
Proof.
  simpl. induction 1 as [|x xs Hx _ IH]; [reflexivity|]. simpl. now rewrite Hx, IH.
Qed.

Lemma sorted_values_lookup (f : pyval -> pyval) (items : dict) (k : string) :
  NoDup (dict_keys items) ->
  dict_lookup (Json.sort_items (map (fun kv => (fst kv, f (snd kv))) items)) k
  = option_map f (dict_lookup items k).
Proof.
  intros Hnd. rewrite <- lookup_map_values. apply lookup_perm.
  - unfold dict_keys. now rewrite map_map.
  - apply sort_items_perm.
Qed.

(** A value equals the value with its keys sorted. *)
Lemma py_eq_sort_keys (v : pyval) : wf_val v -> py_eq v (Json.sort_keys v) = true.
Proof.
  induction v as [| b | n | s | xs IH | items IH] using pyval_induction; intros Hwf.
  - reflexivity.
  - simpl. now destruct b.
  - simpl. apply Z.eqb_refl.
  - simpl. apply String.eqb_refl.
  - rewrite sort_keys_list. apply py_eq_list_map. apply wf_list_unfold in Hwf.
    rewrite Forall_forall in *. auto.
  - apply wf_dict_unfold in Hwf. destruct Hwf as [Hnd Hall].
    rewrite sort_keys_dict, py_eq_dict, sort_items_length, length_map, Nat.eqb_refl.
    simpl. apply forallb_forall. intros [k v] Hin. simpl.
    rewrite sorted_values_lookup by exact Hnd.
    rewrite (lookup_In items k v Hnd Hin). simpl.
    rewrite Forall_forall in *. apply (IH (k, v) Hin). apply (Hall (k, v) Hin).
Qed.

(** C6.  Constructing an instance from the stored text of a mapping-backed
    instance gives an instance with the same truthy entries, provided the
    decoder reads the stored object back from its text. *)
Theorem roundtrip_truthy_entries (encode_basestring_ascii : string -> string)
  (json_loads : string -> pyresult pyval)
  (gettext : Translation.lang -> string -> pyresult string)
  (LANGUAGES : list (string * string)) (d : dict) (st : Translation.lang) :
  wf_dict d ->
  json_loads
    (Json.dumps encode_basestring_ascii false
       (Json.sort_keys (PDict (I18nField.truthy_items d))))
  = Ok (Json.sort_keys (PDict (I18nField.truthy_items d))) ->
  exists s d',
    I18nField.get_prep_value encode_basestring_ascii gettext LANGUAGES
      (LazyI18nString.Instance {| LazyI18nString.data := CVal (PDict d) |}) st
    = (Ok (LazyI18nString.Plain (CVal (PStr s))), st)
    /\ LazyI18nString.__init__ json_loads (PStr s)
       = Some (Ok {| LazyI18nString.data := CVal (PDict d') |})
    /\ Spec.same_truthy_entries d d'.
Proof.
  intros Hwf Hloads. apply wf_dict_unfold in Hwf. destruct Hwf as [Hnd Hall].
  assert (HndT := truthy_items_nodup d Hnd).
  rewrite sort_keys_dict in Hloads.
  set (d' := Json.sort_items
               (map (fun kv => (fst kv, Json.sort_keys (snd kv)))
                    (I18nField.truthy_items d))) in *.
  exists (Json.dumps encode_basestring_ascii true (PDict (I18nField.truthy_items d))), d'.
  split; [reflexivity|]. split.
  - apply init_json_object.
    + now rewrite dumps_sort_keys, sort_keys_dict.
    + eapply Permutation_NoDup; [|exact HndT].
      unfold dict_keys, d'.
      transitivity (map fst (map (fun kv : string * pyval => (fst kv, Json.sort_keys (snd kv)))
                               (I18nField.truthy_items d))).
      * now rewrite map_map.
      * apply Permutation_map, sort_items_perm.
  - intros k. unfold Spec.truthy_at at 2. unfold d'.
    rewrite sorted_values_lookup by exact HndT.
    rewrite truthy_items_lookup by exact Hnd.
    destruct (Spec.truthy_at d k) as [v|] eqn:Hat; simpl; [|trivial].
    apply truthy_at_Some in Hat. destruct Hat as [Hl Hv].
    rewrite truthy_sort_keys, Hv. simpl. apply py_eq_sort_keys.
    apply lookup_Some_In in Hl. rewrite Forall_forall in Hall. apply (Hall (k, v) Hl).
Qed.

Lemma roundtrip_truthy_entries_witness :
  exists s d',
    I18nField.get_prep_value JsonRef.encode_basestring_ascii Example.gettext
      Example.LANGUAGES
      (LazyI18nString.Instance {| LazyI18nString.data := CVal (PDict Example.greeting) |})
      None
    = (Ok (LazyI18nString.Plain (CVal (PStr s))), None)
    /\ LazyI18nString.__init__ JsonRef.json_loads (PStr s)
       = Some (Ok {| LazyI18nString.data := CVal (PDict d') |})
    /\ Spec.same_truthy_entries Example.greeting d'.
Proof.
  apply (roundtrip_truthy_entries JsonRef.encode_basestring_ascii JsonRef.json_loads
           Example.gettext Example.LANGUAGES Example.greeting None).
  - unfold Example.greeting. solve_wf_dict.
  - vm_compute. reflexivity.
Defined.

(** ** The specification's examples *)

Lemma spec_localize_single (default k0 locale : string) (v : pyval) :
  truthy v = true -> Spec.localize default [(k0, v)] locale = v.
Proof.
  intros Hv.
  unfold Spec.localize, Spec.default_or_first_filled, Spec.truthy_at, Spec.similar, dict_get.
  cbn [dict_lookup dict_keys dict_values map fst snd filter].
  destruct (k0 =? locale); [now rewrite Hv|].
  destruct (k0 =? Spec.base locale); [now rewrite Hv|].
  destruct (negb _ && negb _ && _).
  - cbn [map Spec.first_truthy]. now rewrite String.eqb_refl, Hv.
  - cbn [map Spec.first_truthy]. rewrite Hv. destruct (k0 =? default); now rewrite ?Hv.
Qed.

(** A text that is not JSON resolves to itself for every locale. *)
Lemma localize_naive (json_loads : string -> pyresult pyval)
  (LANGUAGE_CODE s lng : string) :
  s <> "" ->
  json_loads s = Raise ValueError ->
  exists self,
    LazyI18nString.__init__ json_loads (PStr s) = Some (Ok self)
    /\ LazyI18nString.localize LANGUAGE_CODE self lng = Ok (PStr s).
Proof.
  intros Hs Hloads. eexists. split; [now apply init_not_json|].
  rewrite localize_refines. f_equal. apply spec_localize_single.
  simpl. apply negb_true_iff. now apply String.eqb_neq.
Qed.

Lemma localize_base_before_empty_exact :
  LazyI18nString.localize "en"
    {| LazyI18nString.data := CVal (PDict [("de", PStr "Hallo"); ("de-AT", PStr "")]) |}
    "de-AT"
  = Ok (PStr "Hallo").
Proof. reflexivity. Qed.

Lemma localize_first_filled :
  LazyI18nString.localize "en"
    {| LazyI18nString.data := CVal (PDict [("de", PStr "Hallo"); ("de-AT", PStr "")]) |}
    "fr"
  = Ok (PStr "Hallo").
Proof. reflexivity. Qed.

Lemma localize_first_sibling :
  LazyI18nString.localize "en"
    {| LazyI18nString.data :=
         CVal (PDict [("en", PStr "Hello"); ("de-CH", PStr ""); ("de-DE", PStr "Guten Tag");
                      ("de-LU", PStr "Moien")]) |}
    "de-AT"
  = Ok (PStr "Guten Tag").
Proof. reflexivity. Qed.

(** * Further properties of the code *)

(** ** [LazyI18nString.map] *)

Lemma comprehension_total (f : pyval -> pyresult pyval) (g : pyval -> pyval)
  (items acc : dict) :
  NoDup (dict_keys (acc ++ items)) ->
  (forall v, In v (dict_values items) -> f v = Ok (g v)) ->
  LazyI18nString.comprehension f items acc
  = Ok (acc ++ map (fun kv => (fst kv, g (snd kv))) items).
Proof.
  revert acc. induction items as [|[k v] items IH]; intros acc Hnd Hf; simpl.
  - now rewrite app_nil_r.
  - rewrite (Hf v (or_introl eq_refl)).
    assert (Hk : ~ In k (dict_keys acc)).
    { unfold dict_keys in *. rewrite map_app in Hnd. simpl in Hnd.
      apply NoDup_remove_2 in Hnd. intros H. apply Hnd. apply in_or_app. now left. }
    rewrite setitem_notin by exact Hk. rewrite IH.
    + now rewrite <- app_assoc.
    + unfold dict_keys in *. rewrite !map_app in *. simpl in *.
      now rewrite <- app_assoc.
    + intros w Hw. apply Hf. now right.
Qed.

Lemma map_total (f : pyval -> pyresult pyval) (g : pyval -> pyval) (d : dict) :
  NoDup (dict_keys d) ->
  (forall v, In v (dict_values d) -> f v = Ok (g v)) ->
  LazyI18nString.map f {| LazyI18nString.data := CVal (PDict d) |}
  = Ok {| LazyI18nString.data :=
            CVal (PDict (map (fun kv => (fst kv, g (snd kv))) d)) |}.
Proof.
  intros Hnd Hf. unfold LazyI18nString.map. cbn [LazyI18nString.data].
  now rewrite (comprehension_total f g d [] Hnd Hf).
Qed.

(** X1.  [map] with a function that returns on every value keeps the keys in
    their order and replaces the value at each key by its image. *)
Theorem map_keeps_keys (f : pyval -> pyresult pyval) (g : pyval -> pyval) (d : dict) :
  NoDup (dict_keys d) ->
  (forall v, In v (dict_values d) -> f v = Ok (g v)) ->
  exists d',
    LazyI18nString.map f {| LazyI18nString.data := CVal (PDict d) |}
    = Ok {| LazyI18nString.data := CVal (PDict d') |}
    /\ dict_keys d' = dict_keys d
    /\ forall k, dict_lookup d' k = option_map g (dict_lookup d k).
Proof.
  intros Hnd Hf. eexists. split; [now apply (map_total f g)|]. split.
  - unfold dict_keys. rewrite map_map. reflexivity.
  - intros k. apply lookup_map_values.
Qed.

(** X2.  When [f] raises, [map] raises the exception of the first value, in
    insertion order, on which [f] raises. *)
Theorem map_first_failure (f : pyval -> pyresult pyval) (pre post : dict)
  (k : string) (v : pyval) (e : exn) :
  (forall w, In w (dict_values pre) -> exists w', f w = Ok w') ->
  f v = Raise e ->
  LazyI18nString.map f {| LazyI18nString.data := CVal (PDict (pre ++ (k, v) :: post)) |}
  = Raise e.
Proof.
  intros Hpre Hv. unfold LazyI18nString.map. cbn [LazyI18nString.data].
  assert (H : forall acc, LazyI18nString.comprehension f (pre ++ (k, v) :: post) acc
                          = Raise e).
  { induction pre as [|[k0 v0] pre IH]; intros acc; simpl.
    - now rewrite Hv.
    - destruct (Hpre v0 (or_introl eq_refl)) as [w' Hw']. rewrite Hw'.
      apply IH. intros w Hw. apply Hpre. now right. }
  now rewrite H.
Qed.

Lemma comprehension_map (f : pyval -> pyresult pyval) (g : pyval -> pyval)
  (items acc : dict) :
  LazyI18nString.comprehension f (map (fun kv => (fst kv, g (snd kv))) items) acc
  = LazyI18nString.comprehension (fun v => f (g v)) items acc.
Proof.
  revert acc. induction items as [|[k v] items IH]; intros acc; simpl; [reflexivity|].
  destruct (f (g v)); [apply IH|reflexivity].
Qed.

(** X3.  Two calls of [map] in a row are one call with the composed
    function, when the first function returns on every value. *)
Theorem map_compose (f f' : pyval -> pyresult pyval) (g : pyval -> pyval) (d : dict) :
  NoDup (dict_keys d) ->
  (forall v, In v (dict_values d) -> f v = Ok (g v)) ->
  exists mapped,
    LazyI18nString.map f {| LazyI18nString.data := CVal (PDict d) |} = Ok mapped
    /\ LazyI18nString.map f' mapped
       = LazyI18nString.map (fun v => f' (g v))
           {| LazyI18nString.data := CVal (PDict d) |}.
Proof.
  intros Hnd Hf. eexists. split; [now apply (map_total f g)|].
  unfold LazyI18nString.map. cbn [LazyI18nString.data]. now rewrite comprehension_map.
Qed.

(** ** Resolution, truthiness and empty values *)

Lemma first_truthy_Some (vs : list pyval) (v : pyval) :
  Spec.first_truthy vs = Some v -> truthy v = true /\ In v vs.
Proof.
  induction vs as [|w vs IH]; simpl; [discriminate|].
  destruct (truthy w) eqn:Hw.
  - intros [= <-]. split; [exact Hw|now left].
  - intros H. destruct (IH H) as [Ht Hin]. split; [exact Ht|now right].
Qed.

Lemma first_truthy_exists (vs : list pyval) :
  existsb truthy vs = true -> exists v, Spec.first_truthy vs = Some v.
Proof.
  induction vs as [|w vs IH]; simpl; [discriminate|].
  destruct (truthy w); [now exists w|exact IH].
Qed.

Lemma spec_localize_truthy (default : string) (d : dict) (locale : string) :
  truthy (Spec.localize default d locale) = existsb truthy (dict_values d).
Proof.
  destruct (existsb truthy (dict_values d)) eqn:Hex.
  - destruct (first_truthy_exists _ Hex) as [w Hw].
    unfold Spec.localize, Spec.default_or_first_filled.
    destruct d as [|kv d']; [discriminate|]. rewrite Hw.
    repeat match goal with
           | |- context [match ?x with Some _ => _ | None => _ end] =>
               let H := fresh "H" in destruct x eqn:H
           end;
      repeat match goal with
             | H : Spec.truthy_at _ _ = Some _ |- _ => apply truthy_at_Some in H; destruct H
             | H : Spec.first_truthy _ = Some _ |- _ => apply first_truthy_Some in H; destruct H
             end; try assumption; discriminate.
  - apply existsb_truthy_false in Hex. rewrite Forall_forall in Hex.
    assert (Hget : forall k, truthy (dict_get d k) = false).
    { intros k. unfold dict_get. destruct (dict_lookup d k) as [v|] eqn:Hl; [|reflexivity].
      apply Hex. apply lookup_Some_In in Hl. now apply (in_map snd) in Hl. }
    assert (Hat : forall k, Spec.truthy_at d k = None).
    { intros k. now rewrite truthy_at_get, Hget. }
    unfold Spec.localize, Spec.default_or_first_filled.
    destruct d as [|kv d']; [reflexivity|].
    rewrite !Hat, (first_truthy_none (map _ _)), (first_truthy_none (dict_values _)).
    + reflexivity.
    + exact Hex.
    + intros v Hv. apply in_map_iff in Hv. destruct Hv as [k [<- _]]. apply Hget.
Qed.

Lemma localize_truthy_as_bool (LANGUAGE_CODE : string) (d : dict) (lng : string) :
  exists v,
    LazyI18nString.localize LANGUAGE_CODE {| LazyI18nString.data := CVal (PDict d) |} lng
    = Ok v
    /\ LazyI18nString.__bool__ {| LazyI18nString.data := CVal (PDict d) |} = truthy v.
Proof.
  exists (Spec.localize LANGUAGE_CODE d lng). split; [apply localize_refines|].
  rewrite spec_localize_truthy. unfold LazyI18nString.__bool__. simpl.
  now destruct d.
Qed.

(** X4.  A mapping-backed instance is truthy exactly when it resolves to a
    truthy value, and this for every locale. *)
Theorem bool_iff_localize_filled (LANGUAGE_CODE : string) (d : dict) (lng : string) :
  exists v,
    LazyI18nString.localize LANGUAGE_CODE {| LazyI18nString.data := CVal (PDict d) |} lng
    = Ok v
    /\ (LazyI18nString.__bool__ {| LazyI18nString.data := CVal (PDict d) |} = true
        <-> truthy v = true).
Proof.
  destruct (localize_truthy_as_bool LANGUAGE_CODE d lng) as [v [Hv Hb]].
  exists v. split; [exact Hv|]. now rewrite Hb.
Qed.

Lemma first_truthy_map (g : pyval -> pyval) (vs : list pyval) :
  (forall v, truthy (g v) = truthy v) ->
  Spec.first_truthy (map g vs) = option_map g (Spec.first_truthy vs).
Proof.
  intros Hg. induction vs as [|v vs IH]; simpl; [reflexivity|].
  rewrite Hg. now destruct (truthy v).
Qed.

Lemma spec_localize_map (g : pyval -> pyval) (default : string) (d : dict)
  (locale : string) :
  (forall v, truthy (g v) = truthy v) ->
  g (PStr "") = PStr "" ->
  Spec.localize default (map (fun kv => (fst kv, g (snd kv))) d) locale
  = g (Spec.localize default d locale).
Proof.
  intros Hg Hempty. set (d' := map (fun kv => (fst kv, g (snd kv))) d).
  assert (Hat : forall k, Spec.truthy_at d' k = option_map g (Spec.truthy_at d k)).
  { intros k. unfold Spec.truthy_at, d'. rewrite lookup_map_values.
    destruct (dict_lookup d k) as [v|]; simpl; [|reflexivity].
    rewrite Hg. now destruct (truthy v). }
  assert (Hsim : Spec.similar d' locale = Spec.similar d locale).
  { unfold Spec.similar, dict_keys, d'. now rewrite map_map. }
  assert (Hfirst : forall keys,
             Spec.first_truthy (map (dict_get d') keys)
             = option_map g (Spec.first_truthy (map (dict_get d) keys))).
  { assert (Hlook : forall k, dict_get d' k
                                = match dict_lookup d k with
                                  | Some v => g v
                                  | None => PNone
                                  end).
    { intros k. unfold dict_get, d'. rewrite lookup_map_values.
      now destruct (dict_lookup d k). }
    induction keys as [|k keys IH]; simpl; [reflexivity|].
    rewrite Hlook. unfold dict_get at 2 3.
    destruct (dict_lookup d k) as [v|]; simpl; [|exact IH].
    rewrite Hg. now destruct (truthy v). }
  assert (Hval : Spec.first_truthy (dict_values d')
                 = option_map g (Spec.first_truthy (dict_values d))).
  { unfold dict_values, d'. rewrite map_map. simpl.
    rewrite <- (map_map snd g). now apply first_truthy_map. }
  unfold Spec.localize, Spec.default_or_first_filled.
  rewrite !Hat, Hsim, Hfirst, Hval.
  destruct d as [|kv d0]; [now rewrite Hempty|]. cbn [d' map].
  destruct (Spec.truthy_at (kv :: d0) locale); [reflexivity|].
  destruct (Spec.truthy_at (kv :: d0) (Spec.base locale)); [reflexivity|].
  destruct (Spec.first_truthy (map (dict_get (kv :: d0)) _)); [reflexivity|].
  destruct (Spec.truthy_at (kv :: d0) default); [reflexivity|].
  destruct (Spec.first_truthy (dict_values (kv :: d0))); [reflexivity|].
  simpl. now rewrite Hempty.
Qed.

(** X5.  [map] with a function that keeps truthiness and the empty text
    commutes with resolution: the mapped instance resolves to the image of
    what the instance resolved to. *)
Theorem map_then_localize (f : pyval -> pyresult pyval) (g : pyval -> pyval)
  (LANGUAGE_CODE : string) (d : dict) (lng : string) :
  NoDup (dict_keys d) ->
  (forall v, In v (dict_values d) -> f v = Ok (g v)) ->
  (forall v, truthy (g v) = truthy v) ->
  g (PStr "") = PStr "" ->
  exists mapped v,
    LazyI18nString.map f {| LazyI18nString.data := CVal (PDict d) |} = Ok mapped
    /\ LazyI18nString.localize LANGUAGE_CODE
         {| LazyI18nString.data := CVal (PDict d) |} lng = Ok v
    /\ LazyI18nString.localize LANGUAGE_CODE mapped lng = Ok (g v).
Proof.
  intros Hnd Hf Hg Hempty. eexists. eexists.
  split; [now apply (map_total f g)|]. split; [apply localize_refines|].
  rewrite localize_refines. f_equal. now apply spec_localize_map.
Qed.

(** Entries with a falsy value do not take part in resolution. *)
Lemma first_truthy_values_filter (d : dict) :
  Spec.first_truthy (dict_values (filter (fun kv => truthy (snd kv)) d))
  = Spec.first_truthy (dict_values d).
Proof.
  induction d as [|[k v] d IH]; simpl; [reflexivity|].
  destruct (truthy v) eqn:Hv; simpl; [now rewrite Hv|exact IH].
Qed.

Lemma first_truthy_keys_filter (get get' : string -> pyval) (P : string -> bool)
  (l : dict) :
  (forall k v, In (k, v) l -> truthy v = true -> get' k = get k) ->
  (forall k v, In (k, v) l -> truthy (get k) = truthy v) ->
  Spec.first_truthy
    (map get' (filter P (dict_keys (filter (fun kv => truthy (snd kv)) l))))
  = Spec.first_truthy (map get (filter P (dict_keys l))).
Proof.
  induction l as [|[k v] l IH]; intros Hsame Hget; simpl; [reflexivity|].
  assert (IH' := IH (fun k' v' H => Hsame k' v' (or_intror H))
                    (fun k' v' H => Hget k' v' (or_intror H))).
  assert (Hk := Hget k v (or_introl eq_refl)).
  destruct (truthy v) eqn:Hv; simpl.
  - destruct (P k); simpl; [|exact IH'].
    rewrite (Hsame k v (or_introl eq_refl) Hv), Hk. reflexivity.
  - destruct (P k); simpl; [|exact IH']. now rewrite Hk.
Qed.

(** X6.  Resolution depends on the truthy entries only: the instance with
    the falsy entries removed resolves every locale to the same value. *)
Theorem localize_ignores_falsy_entries (LANGUAGE_CODE : string) (d : dict) (lng : string) :
  NoDup (dict_keys d) ->
  LazyI18nString.localize LANGUAGE_CODE
    {| LazyI18nString.data := CVal (PDict (I18nField.truthy_items d)) |} lng
  = LazyI18nString.localize LANGUAGE_CODE
      {| LazyI18nString.data := CVal (PDict d) |} lng.
Proof.
  intros Hnd. rewrite !localize_refines. f_equal.
  assert (Hat : forall k, Spec.truthy_at (I18nField.truthy_items d) k = Spec.truthy_at d k).
  { intros k. unfold Spec.truthy_at at 1. rewrite truthy_items_lookup by exact Hnd.
    destruct (Spec.truthy_at d k) as [v|] eqn:E; [|reflexivity].
    apply truthy_at_Some in E. now rewrite (proj2 E). }
  assert (Hget : forall k, truthy (dict_get (I18nField.truthy_items d) k) = true ->
                           dict_get (I18nField.truthy_items d) k = dict_get d k).
  { intros k. unfold dict_get. rewrite truthy_items_lookup by exact Hnd.
    destruct (Spec.truthy_at d k) as [v|] eqn:E; [|discriminate].
    apply truthy_at_Some in E. now rewrite (proj1 E). }
  destruct (existsb truthy (dict_values d)) eqn:Hex.
  - unfold Spec.localize, Spec.default_or_first_filled. rewrite !Hat.
    rewrite truthy_items_filter by exact Hnd.
    rewrite first_truthy_values_filter.
    unfold Spec.similar.
    rewrite (first_truthy_keys_filter (dict_get d)
               (dict_get (filter (fun kv => truthy (snd kv)) d))).
    + destruct (first_truthy_exists _ Hex) as [w Hw].
      destruct d as [|kv d0]; [discriminate|].
      destruct (filter (fun kv0 => truthy (snd kv0)) (kv :: d0)) eqn:Ef; [|reflexivity].
      rewrite <- first_truthy_values_filter, Ef in Hw. discriminate.
    + intros k v Hin Hv. rewrite <- truthy_items_filter by exact Hnd. apply Hget.
      unfold dict_get. rewrite truthy_items_lookup by exact Hnd.
      assert (E : Spec.truthy_at d k = Some v).
      { apply truthy_at_Some. split; [now apply lookup_In|exact Hv]. }
      now rewrite E.
    + intros k v Hin. unfold dict_get. now rewrite (lookup_In d k v Hnd Hin).
  - assert (H1 := spec_localize_truthy LANGUAGE_CODE d lng).
    assert (H2 := spec_localize_truthy LANGUAGE_CODE (I18nField.truthy_items d) lng).
    rewrite Hex in H1.
    assert (Hex' : existsb truthy (dict_values (I18nField.truthy_items d)) = false).
    { rewrite truthy_items_filter by exact Hnd.
      destruct (existsb truthy (dict_values (filter _ d))) eqn:E; [|reflexivity].
      destruct (first_truthy_exists _ E) as [w Hw].
      rewrite first_truthy_values_filter in Hw.
      apply first_truthy_Some in Hw. destruct Hw as [Hw Hin].
      apply existsb_truthy_false in Hex. rewrite Forall_forall in Hex.
      rewrite (Hex w Hin) in Hw. discriminate. }
    rewrite Hex' in H2.
    destruct (spec_localize_filled LANGUAGE_CODE d lng) as [E1|E1]; [congruence|].
    destruct (spec_localize_filled LANGUAGE_CODE (I18nField.truthy_items d) lng)
      as [E2|E2]; [congruence|].
    now rewrite E1, E2.
Qed.

(** ** Stringification and ordering *)

Lemma spec_localize_in (default : string) (d : dict) (locale : string) :
  Spec.localize default d locale = PStr ""
  \/ In (Spec.localize default d locale) (dict_values d).
Proof.
  assert (Hat : forall k v, Spec.truthy_at d k = Some v -> In v (dict_values d)).
  { intros k v H. apply truthy_at_Some in H. destruct H as [H _].
    apply lookup_Some_In in H. now apply (in_map snd) in H. }
  unfold Spec.localize, Spec.default_or_first_filled.
  destruct d as [|kv d']; [now left|].
  destruct (Spec.truthy_at (kv :: d') locale) eqn:E1; [right; eauto|].
  destruct (Spec.truthy_at (kv :: d') (Spec.base locale)) eqn:E2; [right; eauto|].
  destruct (Spec.first_truthy (map _ _)) eqn:E3.
  { right. apply first_truthy_Some in E3. destruct E3 as [Ht Hin].
    apply in_map_iff in Hin. destruct Hin as [k [Hk _]]. unfold dict_get in Hk.
    destruct (dict_lookup (kv :: d') k) eqn:El; [|subst; discriminate].
    subst. apply lookup_Some_In in El. now apply (in_map snd) in El. }
  destruct (Spec.truthy_at (kv :: d') default) eqn:E4; [right; eauto|].
  destruct (Spec.first_truthy (dict_values (kv :: d'))) eqn:E5; [|now left].
  right. now apply first_truthy_Some in E5.
Qed.

Lemma str_text (LANGUAGE_CODE : string) (d : dict) (st : Translation.lang) :
  (forall v, In v (dict_values d) -> exists s, v = PStr s) ->
  exists s,
    LazyI18nString.str LANGUAGE_CODE {| LazyI18nString.data := CVal (PDict d) |} st
    = (Ok s, st).
Proof.
  intros Htext.
  unfold LazyI18nString.str, LazyI18nString.__str__, Translation.bind,
    Translation.get_language.
  rewrite localize_refines.
  match goal with |- context [Spec.localize ?a ?b ?c] =>
    destruct (spec_localize_in a b c) as [H|H]; [rewrite H; now exists ""|];
    destruct (Htext _ H) as [s Hs]; rewrite Hs; now exists s
  end.
Qed.

(** X7.  On a mapping whose values are all texts, [str] returns a text for
    every active locale, does not raise and leaves the active locale as it
    is. *)
Theorem str_of_text_mapping (LANGUAGE_CODE : string) (d : dict) (st : Translation.lang) :
  (forall v, In v (dict_values d) -> exists s, v = PStr s) ->
  exists s,
    LazyI18nString.str LANGUAGE_CODE {| LazyI18nString.data := CVal (PDict d) |} st
    = (Ok s, st)
    /\ LazyI18nString.__str__ LANGUAGE_CODE
         {| LazyI18nString.data := CVal (PDict d) |} st = (Ok (PStr s), st).
Proof.
  intros Htext. destruct (str_text LANGUAGE_CODE d st Htext) as [s Hs].
  exists s. split; [exact Hs|].
  unfold LazyI18nString.str, Translation.bind in Hs.
  destruct (LazyI18nString.__str__ LANGUAGE_CODE _ st) as [[v|e] st'] eqn:E.
  - destruct v; try (injection Hs as Hs _; discriminate).
    injection Hs as Hs Hst. now subst.
  - discriminate.
Qed.

Lemma str_of_text_mapping_witness :
  exists s,
    LazyI18nString.str "en" {| LazyI18nString.data := CVal (PDict Example.greeting) |}
      (Some "de-AT")
    = (Ok s, Some "de-AT")
    /\ LazyI18nString.__str__ "en"
         {| LazyI18nString.data := CVal (PDict Example.greeting) |} (Some "de-AT")
       = (Ok (PStr s), Some "de-AT").
Proof.
  apply (str_of_text_mapping "en" Example.greeting (Some "de-AT")).
  intros v H. simpl in H. destruct H as [<-|[<-|[<-|[]]]]; eexists; reflexivity.
Defined.

Lemma ltb_irrefl (a : string) : (a <? a)%string = false.
Proof.
  unfold String.ltb. assert (E : (a ?= a)%string = Eq).
  { now apply String_as_OT.cmp_eq. }
  now rewrite E.
Qed.

Lemma ltb_asym (a b : string) : (a <? b)%string = true -> (b <? a)%string = false.
Proof.
  intros H. destruct (b <? a)%string eqn:E; [|reflexivity].
  assert (F := ltb_trans _ _ _ H E). now rewrite ltb_irrefl in F.
Qed.

Lemma lt_run (LANGUAGE_CODE : string)
  (gettext : Translation.lang -> string -> pyresult string)
  (dx dy : dict) (st : Translation.lang) (sx sy : string) :
  LazyI18nString.str LANGUAGE_CODE {| LazyI18nString.data := CVal (PDict dx) |} st
  = (Ok sx, st) ->
  LazyI18nString.str LANGUAGE_CODE {| LazyI18nString.data := CVal (PDict dy) |} st
  = (Ok sy, st) ->
  match LazyI18nString.__lt__ LANGUAGE_CODE gettext
          {| LazyI18nString.data := CVal (PDict dx) |}
          (LazyI18nString.Instance {| LazyI18nString.data := CVal (PDict dy) |}) with
  | Some m => Some (m st)
  | None => None
  end = Some (Ok (sx <? sy)%string, st).
Proof.
  intros Hx Hy. unfold LazyI18nString.__lt__, LazyI18nString.str_other.
  unfold Translation.bind at 1. rewrite Hx.
  unfold Translation.bind at 1. now rewrite Hy.
Qed.

Local Abbreviation less LANGUAGE_CODE gettext st dx dy :=
  (match LazyI18nString.__lt__ LANGUAGE_CODE gettext
           {| LazyI18nString.data := CVal (PDict dx) |}
           (LazyI18nString.Instance {| LazyI18nString.data := CVal (PDict dy) |}) with
   | Some m => Some (m st)
   | None => None
   end).

(** X8.  Under any active locale, [<] on instances whose values are all
    texts is a strict order: no instance is below itself, two instances are
    never below each other, and the relation is transitive; the comparison
    does not raise and leaves the active locale as it is. *)
Theorem lt_strict_order (LANGUAGE_CODE : string)
  (gettext : Translation.lang -> string -> pyresult string)
  (da db dc : dict) (st : Translation.lang) :
  (forall v, In v (dict_values da) -> exists s, v = PStr s) ->
  (forall v, In v (dict_values db) -> exists s, v = PStr s) ->
  (forall v, In v (dict_values dc) -> exists s, v = PStr s) ->
  less LANGUAGE_CODE gettext st da da = Some (Ok false, st)
  /\ (exists r, less LANGUAGE_CODE gettext st da db = Some (Ok r, st))
  /\ (less LANGUAGE_CODE gettext st da db = Some (Ok true, st) ->
      less LANGUAGE_CODE gettext st db da = Some (Ok false, st))
  /\ (less LANGUAGE_CODE gettext st da db = Some (Ok true, st) ->
      less LANGUAGE_CODE gettext st db dc = Some (Ok true, st) ->
      less LANGUAGE_CODE gettext st da dc = Some (Ok true, st)).
Proof.
  intros Ha Hb Hc.
  destruct (str_text LANGUAGE_CODE da st Ha) as [sa Hsa].
  destruct (str_text LANGUAGE_CODE db st Hb) as [sb Hsb].
  destruct (str_text LANGUAGE_CODE dc st Hc) as [sc Hsc].
  rewrite (lt_run LANGUAGE_CODE gettext da da st sa sa Hsa Hsa).
  rewrite (lt_run LANGUAGE_CODE gettext da db st sa sb Hsa Hsb).
  rewrite (lt_run LANGUAGE_CODE gettext db da st sb sa Hsb Hsa).
  rewrite (lt_run LANGUAGE_CODE gettext db dc st sb sc Hsb Hsc).
  rewrite (lt_run LANGUAGE_CODE gettext da dc st sa sc Hsa Hsc).
  split; [now rewrite ltb_irrefl|]. split; [now eexists|]. split.
  - intros [= H]. now rewrite (ltb_asym _ _ H).
  - intros [= H1] [= H2]. now rewrite (ltb_trans _ _ _ H1 H2).
Qed.

Lemma lt_strict_order_witness :
  less "en" Example.gettext (Some "de") Example.greeting Example.greeting
  = Some (Ok false, Some "de")
  /\ (exists r, less "en" Example.gettext (Some "de") Example.greeting
                  [("en", PStr "Welcome")] = Some (Ok r, Some "de"))
  /\ (less "en" Example.gettext (Some "de") Example.greeting [("en", PStr "Welcome")]
      = Some (Ok true, Some "de") ->
      less "en" Example.gettext (Some "de") [("en", PStr "Welcome")] Example.greeting
      = Some (Ok false, Some "de"))
  /\ (less "en" Example.gettext (Some "de") Example.greeting [("en", PStr "Welcome")]
      = Some (Ok true, Some "de") ->
      less "en" Example.gettext (Some "de") [("en", PStr "Welcome")]
        [("de", PStr "Zebra")] = Some (Ok true, Some "de") ->
      less "en" Example.gettext (Some "de") Example.greeting [("de", PStr "Zebra")]
      = Some (Ok true, Some "de")).
Proof.
  apply (lt_strict_order "en" Example.gettext Example.greeting
           [("en", PStr "Welcome")] [("de", PStr "Zebra")] (Some "de")).
  - intros v H. simpl in H. destruct H as [<-|[<-|[<-|[]]]]; eexists; reflexivity.
  - intros v H. simpl in H. destruct H as [<-|[]]; eexists; reflexivity.
  - intros v H. simpl in H. destruct H as [<-|[]]; eexists; reflexivity.
Defined.

(** ** Conversion and storage *)

(** X9.  [to_python] is idempotent: what it returns it returns unchanged;
    [None] stays [None] and an instance stays the instance. *)
Theorem to_python_idempotent (json_loads : string -> pyresult pyval)
  (value result : LazyI18nString.pyobj) :
  I18nField.to_python json_loads value = Some (Ok result) ->
  I18nField.to_python json_loads result = Some (Ok result)
  /\ (value = LazyI18nString.Plain (CVal PNone) -> result = value)
  /\ (forall i, value = LazyI18nString.Instance i -> result = value).
Proof.
  intros H. unfold I18nField.to_python in H.
  destruct value as [[v|p]|i|oid attrs]; try discriminate.
  - destruct v;
      try (destruct (LazyI18nString.__init__ json_loads _) as [[i|e]|];
           try discriminate; injection H as <-;
           split; [reflexivity|split; [discriminate|discriminate]]).
    injection H as <-. split; [reflexivity|split; [reflexivity|discriminate]].
  - injection H as <-. split; [reflexivity|split; [discriminate|reflexivity]].
Qed.

Lemma to_python_idempotent_witness :
  I18nField.to_python JsonRef.json_loads
    (LazyI18nString.Instance {| LazyI18nString.data := CVal (PDict [("_naive", PStr "Hello")]) |})
  = Some (Ok (LazyI18nString.Instance
                {| LazyI18nString.data := CVal (PDict [("_naive", PStr "Hello")]) |}))
  /\ (LazyI18nString.Plain (CVal (PStr "Hello")) = LazyI18nString.Plain (CVal PNone) ->
      LazyI18nString.Instance
        {| LazyI18nString.data := CVal (PDict [("_naive", PStr "Hello")]) |}
      = LazyI18nString.Plain (CVal (PStr "Hello")))
  /\ (forall i, LazyI18nString.Plain (CVal (PStr "Hello")) = LazyI18nString.Instance i ->
      LazyI18nString.Instance
        {| LazyI18nString.data := CVal (PDict [("_naive", PStr "Hello")]) |}
      = LazyI18nString.Plain (CVal (PStr "Hello"))).
Proof.
  apply (to_python_idempotent JsonRef.json_loads (LazyI18nString.Plain (CVal (PStr "Hello")))).
  reflexivity.
Defined.

Lemma sorted_perm_unique {A : Type} (l l' : list (string * A)) :
  Spec.keys_sorted l -> Spec.keys_sorted l' -> Permutation l l' -> l = l'.
Proof.
  unfold Spec.keys_sorted. revert l'.
  induction l as [|x xs IH]; intros l' Hs Hs' Hp.
  - apply Permutation_nil in Hp. now subst.
  - destruct l' as [|y ys].
    + apply Permutation_sym, Permutation_nil in Hp. discriminate.
    + apply StronglySorted_inv in Hs, Hs'.
      destruct Hs as [Hs Hx]. destruct Hs' as [Hs' Hy].
      rewrite Forall_forall in Hx, Hy.
      assert (Exy : x = y).
      { assert (Hin : In x (y :: ys)) by (eapply Permutation_in; [exact Hp|now left]).
        assert (Hin' : In y (x :: xs)).
        { eapply Permutation_in; [apply Permutation_sym; exact Hp|now left]. }
        destruct Hin as [->|Hin]; [reflexivity|].
        destruct Hin' as [->|Hin']; [reflexivity|].
        assert (F := ltb_trans _ _ _ (Hx y Hin') (Hy x Hin)).
        now rewrite ltb_irrefl in F. }
      subst y. f_equal. apply IH; [exact Hs|exact Hs'|].
      now apply Permutation_cons_inv in Hp.
Qed.

Lemma sort_items_perm_eq {A : Type} (l l' : list (string * A)) :
  NoDup (map fst l) -> Permutation l l' -> Json.sort_items l = Json.sort_items l'.
Proof.
  intros Hnd Hp. apply sorted_perm_unique.
  - now apply sort_items_keys_sorted.
  - apply sort_items_keys_sorted. eapply Permutation_NoDup; [|exact Hnd].
    now apply Permutation_map.
  - rewrite <- (sort_items_perm l), <- (sort_items_perm l'). exact Hp.
Qed.

Lemma nodup_keys_pairs (d : dict) : NoDup (dict_keys d) -> NoDup d.
Proof.
  intros H. now apply NoDup_map_inv in H.
Qed.

(** X10.  The stored text is canonical: two mappings with the same truthy
    entries, whatever their insertion order and their falsy entries, are
    stored as the same text. *)
Theorem get_prep_value_canonical (encode_basestring_ascii : string -> string)
  (gettext : Translation.lang -> string -> pyresult string)
  (LANGUAGES : list (string * string)) (d1 d2 : dict) (st : Translation.lang) :
  NoDup (dict_keys d1) ->
  NoDup (dict_keys d2) ->
  (forall k, Spec.truthy_at d1 k = Spec.truthy_at d2 k) ->
  I18nField.get_prep_value encode_basestring_ascii gettext LANGUAGES
    (LazyI18nString.Instance {| LazyI18nString.data := CVal (PDict d1) |}) st
  = I18nField.get_prep_value encode_basestring_ascii gettext LANGUAGES
      (LazyI18nString.Instance {| LazyI18nString.data := CVal (PDict d2) |}) st.
Proof.
  intros Hnd1 Hnd2 Hsame.
  unfold I18nField.get_prep_value, Translation.ret. cbn [LazyI18nString.data].
  do 5 f_equal. rewrite !dumps_dict. f_equal.
  assert (Hp : Permutation (I18nField.truthy_items d1) (I18nField.truthy_items d2)).
  { apply NoDup_Permutation.
    - apply nodup_keys_pairs. now apply truthy_items_nodup.
    - apply nodup_keys_pairs. now apply truthy_items_nodup.
    - intros [k v]. split; intros Hin.
      + apply lookup_Some_In. rewrite truthy_items_lookup, <- Hsame by assumption.
        rewrite <- truthy_items_lookup by assumption.
        apply lookup_In; [now apply truthy_items_nodup|exact Hin].
      + apply lookup_Some_In. rewrite truthy_items_lookup, Hsame by assumption.
        rewrite <- truthy_items_lookup by assumption.
        apply lookup_In; [now apply truthy_items_nodup|exact Hin]. }
  apply sort_items_perm_eq.
  - rewrite map_map. simpl. now apply truthy_items_nodup.
  - now apply Permutation_map.
Qed.

Lemma get_prep_value_canonical_witness :
  I18nField.get_prep_value JsonRef.encode_basestring_ascii Example.gettext
    Example.LANGUAGES
    (LazyI18nString.Instance {| LazyI18nString.data := CVal (PDict Example.greeting) |})
    None
  = I18nField.get_prep_value JsonRef.encode_basestring_ascii Example.gettext
      Example.LANGUAGES
      (LazyI18nString.Instance
         {| LazyI18nString.data :=
              CVal (PDict [("de", PStr "Hallo"); ("it", PStr ""); ("fr", PStr "Bonjour")]) |})
      None.
Proof.
  apply (get_prep_value_canonical JsonRef.encode_basestring_ascii Example.gettext
           Example.LANGUAGES Example.greeting
           [("de", PStr "Hallo"); ("it", PStr ""); ("fr", PStr "Bonjour")] None).
  - unfold Example.greeting. solve_nodup.
  - solve_nodup.
  - intros k. unfold Spec.truthy_at, Example.greeting. cbn [dict_lookup].
    destruct ("fr" =? k) eqn:E1, ("en" =? k) eqn:E2, ("de" =? k) eqn:E3, ("it" =? k) eqn:E4;
      try reflexivity;
      repeat match goal with
             | H : (_ =? _) = true |- _ => apply String.eqb_eq in H
             end; subst; discriminate.
Defined.

Lemma sort_items_sorted_id {A : Type} (l : list (string * A)) :
  Sorted (fun x y => (fst x <=? fst y)%string = true) l -> Json.sort_items l = l.
Proof.
  induction 1 as [|x l Hs IH Hhd]; simpl; [reflexivity|].
  rewrite IH. destruct l as [|y l]; simpl; [reflexivity|].
  inversion Hhd as [|? ? Hxy]; subst. now rewrite Hxy.
Qed.

Lemma sort_items_idempotent {A : Type} (l : list (string * A)) :
  Json.sort_items (Json.sort_items l) = Json.sort_items l.
Proof.
  apply sort_items_sorted_id, sort_items_sorted.
Qed.

Lemma sort_keys_idempotent (v : pyval) :
  Json.sort_keys (Json.sort_keys v) = Json.sort_keys v.
Proof.
  induction v as [| b | n | s | xs IH | items IH] using pyval_induction;
    try reflexivity.
  - rewrite !sort_keys_list, map_map. f_equal.
    apply map_ext_in. intros x Hx. rewrite Forall_forall in IH. now apply IH.
  - rewrite !sort_keys_dict. f_equal.
    rewrite (sort_items_map Json.sort_keys), sort_items_idempotent.
    rewrite <- (sort_items_map Json.sort_keys), map_map. cbn [fst snd].
    f_equal. apply map_ext_in. intros [k v] Hin. simpl. f_equal.
    rewrite Forall_forall in IH. now apply (IH (k, v)).
Qed.

Lemma filter_all {A : Type} (f : A -> bool) (l : list A) :
  (forall x, In x l -> f x = true) -> filter f l = l.
Proof.
  induction l as [|x l IH]; intros H; simpl; [reflexivity|].
  rewrite (H x (or_introl eq_refl)). f_equal. apply IH. intros y Hy. apply H. now right.
Qed.

(** X11.  The stored text is a fixed point of the round trip: the instance
    constructed from the stored text of a mapping-backed instance is stored
    as the same text again. *)
Theorem get_prep_value_of_roundtrip (encode_basestring_ascii : string -> string)
  (json_loads : string -> pyresult pyval)
  (gettext : Translation.lang -> string -> pyresult string)
  (LANGUAGES : list (string * string)) (d : dict) (st : Translation.lang) :
  NoDup (dict_keys d) ->
  json_loads
    (Json.dumps encode_basestring_ascii false
       (Json.sort_keys (PDict (I18nField.truthy_items d))))
  = Ok (Json.sort_keys (PDict (I18nField.truthy_items d))) ->
  exists s again,
    I18nField.get_prep_value encode_basestring_ascii gettext LANGUAGES
      (LazyI18nString.Instance {| LazyI18nString.data := CVal (PDict d) |}) st
    = (Ok (LazyI18nString.Plain (CVal (PStr s))), st)
    /\ LazyI18nString.__init__ json_loads (PStr s) = Some (Ok again)
    /\ I18nField.get_prep_value encode_basestring_ascii gettext LANGUAGES
         (LazyI18nString.Instance again) st
       = (Ok (LazyI18nString.Plain (CVal (PStr s))), st).
Proof.
  intros Hnd Hloads. assert (HndT := truthy_items_nodup d Hnd).
  assert (Hsk := sort_keys_dict (I18nField.truthy_items d)).
  set (d' := Json.sort_items
               (map (fun kv => (fst kv, Json.sort_keys (snd kv)))
                    (I18nField.truthy_items d))) in *.
  assert (Hnd' : NoDup (dict_keys d')).
  { eapply Permutation_NoDup; [|exact HndT]. unfold dict_keys, d'.
    transitivity (map fst (map (fun kv : string * pyval => (fst kv, Json.sort_keys (snd kv)))
                             (I18nField.truthy_items d))).
    - now rewrite map_map.
    - apply Permutation_map, sort_items_perm. }
  exists (Json.dumps encode_basestring_ascii true (PDict (I18nField.truthy_items d))).
  exists {| LazyI18nString.data := CVal (PDict d') |}.
  split; [reflexivity|]. split.
  - apply init_json_object; [|exact Hnd']. now rewrite dumps_sort_keys, <- Hsk.
  - unfold I18nField.get_prep_value, Translation.ret. cbn [LazyI18nString.data].
    do 5 f_equal.
    assert (Hall : I18nField.truthy_items d' = d').
    { rewrite truthy_items_filter by exact Hnd'. apply filter_all.
      intros [k w] Hin. simpl.
      apply (Permutation_in _ (Permutation_sym (sort_items_perm _))) in Hin.
      apply in_map_iff in Hin. destruct Hin as [[k0 v0] [[= <- <-] Hin]].
      rewrite truthy_sort_keys.
      rewrite truthy_items_filter in Hin by exact Hnd. apply filter_In in Hin.
      now destruct Hin. }
    rewrite Hall, (dumps_sort_keys _ (PDict d')), <- Hsk, sort_keys_idempotent.
    now rewrite <- dumps_sort_keys.
Qed.

Lemma get_prep_value_of_roundtrip_witness :
  exists s again,
    I18nField.get_prep_value JsonRef.encode_basestring_ascii Example.gettext
      Example.LANGUAGES
      (LazyI18nString.Instance {| LazyI18nString.data := CVal (PDict Example.greeting) |})
      None
    = (Ok (LazyI18nString.Plain (CVal (PStr s))), None)
    /\ LazyI18nString.__init__ JsonRef.json_loads (PStr s) = Some (Ok again)
    /\ I18nField.get_prep_value JsonRef.encode_basestring_ascii Example.gettext
         Example.LANGUAGES (LazyI18nString.Instance again) None
       = (Ok (LazyI18nString.Plain (CVal (PStr s))), None).
Proof.
  apply (get_prep_value_of_roundtrip JsonRef.encode_basestring_ascii JsonRef.json_loads
           Example.gettext Example.LANGUAGES Example.greeting None).
  - unfold Example.greeting. solve_nodup.
  - vm_compute. reflexivity.
Defined.

Lemma rendered_items_raises (gettext : Translation.lang -> string -> pyresult string)
  (value : LazyGettextProxy.t) (pre post : list (string * string))
  (lng lngname : string) (e : exn) (acc : dict) (st : Translation.lang) :
  (forall l, In l (map fst pre) ->
             exists s, gettext (Some l) (LazyGettextProxy.lazygettext value) = Ok s) ->
  gettext (Some lng) (LazyGettextProxy.lazygettext value) = Raise e ->
  I18nField.rendered_items gettext value (pre ++ (lng, lngname) :: post) acc st
  = (Raise e, st).
Proof.
  intros Hpre He. revert acc.
  induction pre as [|[l lname] pre IH]; intros acc; cbn [app I18nField.rendered_items].
  - unfold Translation.bind. now rewrite getitem_run, He.
  - destruct (Hpre l (or_introl eq_refl)) as [s Hs].
    assert (Hpre' : forall l', In l' (map fst pre) ->
               exists s, gettext (Some l') (LazyGettextProxy.lazygettext value) = Ok s).
    { intros l' H. apply Hpre. now right. }
    unfold Translation.bind at 1. rewrite getitem_run, Hs.
    destruct (truthy (PStr s)).
    + unfold Translation.bind at 1. rewrite getitem_run, Hs. now apply IH.
    + now apply IH.
Qed.

(** X12.  When the rendering raises for a supported locale, serializing a
    proxy-backed instance raises that exception, for the first such locale
    in the order of the supported locales, and the active locale is as it
    was before. *)
Theorem get_prep_value_rendering_raises (encode_basestring_ascii : string -> string)
  (gettext : Translation.lang -> string -> pyresult string)
  (pre post : list (string * string)) (lng lngname : string) (e : exn)
  (p : LazyGettextProxy.t) (st : Translation.lang) :
  (forall l, In l (map fst pre) ->
             exists s, gettext (Some l) (LazyGettextProxy.lazygettext p) = Ok s) ->
  gettext (Some lng) (LazyGettextProxy.lazygettext p) = Raise e ->
  I18nField.get_prep_value encode_basestring_ascii gettext (pre ++ (lng, lngname) :: post)
    (LazyI18nString.Instance {| LazyI18nString.data := CProxy p |}) st
  = (Raise e, st).
Proof.
  intros Hpre He. unfold I18nField.get_prep_value, Translation.bind.
  cbn [LazyI18nString.data].
  now rewrite (rendered_items_raises gettext p pre post lng lngname e [] st Hpre He).
Qed.

Lemma get_prep_value_rendering_raises_witness :
  I18nField.get_prep_value JsonRef.encode_basestring_ascii
    (fun active message =>
       match active with
       | Some "de" => Raise KeyError
       | _ => Ok message
       end)
    ([("en", "English")] ++ ("de", "German") :: [("fr", "French")])
    (LazyI18nString.Instance {| LazyI18nString.data := CProxy Example.hello |})
    (Some "it")
  = (Raise KeyError, Some "it").
Proof.
  apply (get_prep_value_rendering_raises JsonRef.encode_basestring_ascii
           (fun active message =>
              match active with
              | Some "de" => Raise KeyError
              | _ => Ok message
              end)
           [("en", "English")] [("fr", "French")] "de" "German" KeyError
           Example.hello (Some "it")).
  - intros l H. simpl in H. destruct H as [<-|[]]. eexists. reflexivity.
  - reflexivity.
Defined.

Lemma string_length_append (a b : string) :
  String.length (a ++ b) = String.length a + String.length b.
Proof.
  induction a as [|c a IH]; simpl; [reflexivity|]. now rewrite IH.
Qed.

Lemma truthy_items_empty_from (items acc : dict) :
  fold_left
    (fun acc kv => if truthy (snd kv) then dict_setitem acc (fst kv) (snd kv) else acc)
    items acc = [] <->
  acc = [] /\ Forall (fun v => truthy v = false) (dict_values items).
Proof.
  revert acc. induction items as [|[k v] items IH]; intros acc; simpl.
  - split; [intros ->; split; [reflexivity|constructor]|now intros [-> _]].
  - rewrite IH. destruct (truthy v) eqn:Hv.
    + split.
      * intros [H _]. destruct acc as [|[k0 v0] acc]; simpl in H; [discriminate|].
        destruct (k0 =? k); discriminate.
      * intros [_ H]. inversion H; subst. congruence.
    + split.
      * intros [-> H]. split; [reflexivity|now constructor].
      * intros [-> H]. inversion H; subst. now split.
Qed.

(** X13.  A mapping-backed instance is stored as the empty JSON object
    exactly when it is falsy. *)
Theorem stored_empty_object_iff_falsy (encode_basestring_ascii : string -> string)
  (gettext : Translation.lang -> string -> pyresult string)
  (LANGUAGES : list (string * string)) (d : dict) (st : Translation.lang) :
  I18nField.get_prep_value encode_basestring_ascii gettext LANGUAGES
    (LazyI18nString.Instance {| LazyI18nString.data := CVal (PDict d) |}) st
  = (Ok (LazyI18nString.Plain (CVal (PStr "{}"))), st)
  <-> LazyI18nString.__bool__ {| LazyI18nString.data := CVal (PDict d) |} = false.
Proof.
  assert (Hbool : LazyI18nString.__bool__ {| LazyI18nString.data := CVal (PDict d) |}
                  = false
                  <-> Forall (fun v => truthy v = false) (dict_values d)).
  { unfold LazyI18nString.__bool__. simpl. destruct d as [|kv d'].
    - split; [constructor|reflexivity].
    - simpl negb. cbv iota. apply existsb_truthy_false. }
  rewrite Hbool.
  assert (Hempty : I18nField.truthy_items d = []
                   <-> Forall (fun v => truthy v = false) (dict_values d)).
  { unfold I18nField.truthy_items. rewrite truthy_items_empty_from. tauto. }
  rewrite <- Hempty.
  unfold I18nField.get_prep_value, Translation.ret. cbn [LazyI18nString.data].
  split.
  - intros H0.
    assert (H : Json.dumps encode_basestring_ascii true (PDict (I18nField.truthy_items d))
                = "{}") by congruence.
    clear H0. rewrite dumps_dict in H.
    destruct (I18nField.truthy_items d) as [|kv items] eqn:E; [reflexivity|].
    exfalso. apply (f_equal String.length) in H.
    unfold Json.json_object in H.
    assert (Hlen := sort_items_length
                      (map (fun kv0 : string * pyval =>
                              (fst kv0, Json.dumps encode_basestring_ascii true (snd kv0)))
                           (kv :: items))).
    destruct (Json.sort_items _) as [|m ms]; [discriminate|].
    cbn [map Json.join] in H.
    destruct (map _ ms).
    + rewrite !string_length_append in H. simpl in H. lia.
    + rewrite !string_length_append in H. simpl in H. lia.
  - intros ->. reflexivity.
Qed.

(** ** The form widget and the form field *)

Lemma list_set_length (l l' : list pyval) (i : nat) (x : pyval) :
  Forms.list_set l i x = Some l' -> List.length l' = List.length l.
Proof.
  revert i l'. induction l as [|y l IH]; intros i l'; simpl; [discriminate|].
  destruct i as [|i].
  - now intros [= <-].
  - destruct (Forms.list_set l i x) as [r|] eqn:E; [|discriminate].
    intros [= <-]. simpl. now rewrite (IH i r E).
Qed.

Lemma list_set_in_range (l : list pyval) (i : nat) (x : pyval) :
  i < List.length l -> exists l', Forms.list_set l i x = Some l'.
Proof.
  revert i. induction l as [|y l IH]; intros i Hi; simpl in *; [lia|].
  destruct i as [|i]; [now eexists|].
  destruct (IH i) as [r Hr]; [lia|]. rewrite Hr. now eexists.
Qed.

Lemma store_length (l l' : list pyval) (i : option nat) (x : pyval) :
  Forms.store l i x = Forms.Done l' -> List.length l' = List.length l.
Proof.
  unfold Forms.store. destruct i as [i|]; [|discriminate].
  destruct (Forms.list_set l i x) as [r|] eqn:E; [|discriminate].
  intros [= <-]. now apply (list_set_length l r i x).
Qed.

Section WidgetProperties.

Variable json_loads : string -> pyresult pyval.
Variable LANGUAGE_CODE : string.
Variable gettext : Translation.lang -> string -> pyresult string.
Variable locales : list string.
Variable enabled_locales : list string.

Local Abbreviation decompress_loop := (Forms.decompress_loop gettext enabled_locales).
Local Abbreviation decompress :=
  (Forms.decompress json_loads LANGUAGE_CODE gettext locales enabled_locales).
Local Abbreviation enabled := (Forms.contains enabled_locales).

Lemma decompress_loop_length (value : LazyI18nString.t) (rest : list string) :
  forall i first_enabled any data st first_enabled' any' data' st',
    decompress_loop value i rest first_enabled any data st
    = (Ok (first_enabled', any', data'), st') ->
    List.length data' = List.length data + List.length rest.
Proof.
  induction rest as [|lng rest IH]; intros i fe any data st fe' any' data' st' H.
  - cbn in H. injection H as _ _ <- _. simpl. lia.
  - cbn [Forms.decompress_loop] in H. unfold Translation.bind at 1 in H.
    destruct (Forms.dataline gettext value lng st) as [[line|e] st1]; [|discriminate].
    apply IH in H. rewrite length_app in H. simpl in *. lia.
Qed.

(** X14.  Whenever [decompress] returns, it returns one entry for each
    locale of the widget. *)
Theorem decompress_length (value : LazyI18nString.pyobj)
  (run : Translation.lang -> Forms.outcome (list pyval) * Translation.lang)
  (st st' : Translation.lang) (data : list pyval) :
  decompress value = Some run ->
  run st = (Forms.Done data, st') ->
  List.length data = List.length locales.
Proof.
  unfold Forms.decompress. intros Hd Hrun.
  destruct (Forms.wrap json_loads value) as [[v|e]|]; [| |discriminate].
  - injection Hd as <-.
    destruct (decompress_loop v 0 locales None false [] st)
      as [[[[fe any] data0]|e] st1] eqn:Hloop; [|discriminate].
    apply decompress_loop_length in Hloop. simpl in Hloop.
    destruct (LazyI18nString.data v) as [w|p].
    + destruct w;
        try (destruct (LazyI18nString.__bool__ v);
             [ injection Hrun as Hrun _; apply store_length in Hrun; lia
             | injection Hrun as <- _; lia ]).
      destruct (LazyI18nString.__bool__ v && negb any).
      * destruct enabled_locales as [|lng ls]; [discriminate|].
        destruct (LazyI18nString.localize LANGUAGE_CODE v lng); [|discriminate].
        injection Hrun as Hrun _. apply store_length in Hrun. lia.
      * injection Hrun as <- _. lia.
    + destruct (LazyI18nString.__bool__ v && negb any).
      * destruct enabled_locales as [|lng ls]; [discriminate|].
        destruct (LazyI18nString.localize LANGUAGE_CODE v lng); [|discriminate].
        injection Hrun as Hrun _. apply store_length in Hrun. lia.
      * injection Hrun as <- _. lia.
  - injection Hd as <-. discriminate.
Qed.

(** The loop for a value whose lines do not raise. *)
Lemma decompress_loop_pure (value : LazyI18nString.t) (line : string -> pyval)
  (rest : list string) :
  (forall l st, In l rest -> Forms.dataline gettext value l st = (Ok (line l), st)) ->
  forall i first_enabled any data st,
  exists first_enabled',
    decompress_loop value i rest first_enabled any data st
    = (Ok (first_enabled',
           any || existsb (fun l => enabled l && truthy (line l)) rest,
           data ++ map line rest), st)
    /\ (first_enabled <> None -> first_enabled' <> None)
    /\ ((exists l, In l rest /\ enabled l = true) -> first_enabled' <> None)
    /\ ((forall l, In l rest -> enabled l = false) -> first_enabled' = first_enabled)
    /\ (forall j, first_enabled' = Some j ->
          first_enabled = Some j
          \/ (i <= j /\ exists l, nth_error rest (j - i) = Some l /\ enabled l = true)).
Proof.
  induction rest as [|lng rest IH]; intros Hline i fe any data st.
  - exists fe. cbn. rewrite orb_false_r, app_nil_r.
    split; [reflexivity|]. split; [auto|]. split; [now intros [l [[] _]]|].
    split; [reflexivity|]. intros j Hj. now left.
  - cbn [Forms.decompress_loop]. unfold Translation.bind at 1.
    rewrite (Hline lng st (or_introl eq_refl)).
    match goal with
    | |- context [Forms.decompress_loop _ _ _ (S i) rest ?fe1 ?any1 ?data1 st] =>
        destruct (IH (fun l st0 H => Hline l st0 (or_intror H)) (S i) fe1 any1 data1 st)
          as [fe' [Hrun [Hmono [Hsome [Hnone Hidx]]]]]
    end.
    exists fe'. split; [|split; [|split; [|split]]].
    + rewrite Hrun. cbn [existsb map]. rewrite <- app_assoc. cbn [app].
      do 3 f_equal. destruct (enabled lng && truthy (line lng)); simpl;
        [now rewrite orb_true_r|reflexivity].
    + intros Hfe. apply Hmono. destruct (enabled lng); [|exact Hfe].
      destruct fe as [[|j]|]; [discriminate|discriminate|contradiction].
    + intros [l [[<-|Hin] Hl]].
      * apply Hmono. rewrite Hl. now destruct fe as [[|j]|].
      * apply Hsome. now exists l.
    + intros Hno. rewrite Hnone.
      * now rewrite (Hno lng (or_introl eq_refl)).
      * intros l Hl. apply Hno. now right.
    + intros j Hj. destruct (Hidx j Hj) as [Hfe1|[Hle [l [Hnth Hl]]]].
      * destruct (enabled lng) eqn:El; [|now left].
        destruct fe as [[|j0]|].
        -- injection Hfe1 as <-. right. split; [lia|]. exists lng.
           rewrite Nat.sub_diag. now split.
        -- now left.
        -- injection Hfe1 as <-. right. split; [lia|]. exists lng.
           rewrite Nat.sub_diag. now split.
      * right. split; [lia|]. exists l. split; [|exact Hl].
        replace (j - i) with (S (j - S i)) by lia. exact Hnth.
Qed.

Lemma dataline_mapping (d : dict) (l : string) (st : Translation.lang) :
  Forms.dataline gettext {| LazyI18nString.data := CVal (PDict d) |} l st
  = (Ok (dict_get d l), st).
Proof.
  unfold Forms.dataline, dict_get. cbn [LazyI18nString.data].
  now destruct (dict_lookup d l).
Qed.

(** X15.  For a mapping-backed instance that is falsy, or that has a truthy
    value for an enabled locale of the widget, [decompress] returns for each
    locale of the widget the value stored for it, [None] where there is
    none. *)
Theorem decompress_values (d : dict) (st : Translation.lang) :
  LazyI18nString.__bool__ {| LazyI18nString.data := CVal (PDict d) |} = false
  \/ (exists l, In l locales /\ enabled l = true /\ truthy (dict_get d l) = true) ->
  exists run,
    decompress (LazyI18nString.Instance {| LazyI18nString.data := CVal (PDict d) |})
    = Some run
    /\ run st = (Forms.Done (map (dict_get d) locales), st).
Proof.
  intros H. eexists. split; [reflexivity|]. cbv beta.
  destruct (decompress_loop_pure {| LazyI18nString.data := CVal (PDict d) |}
              (dict_get d) locales (fun l st0 _ => dataline_mapping d l st0)
              0 None false [] st) as [fe [Hrun _]].
  rewrite Hrun. cbn [LazyI18nString.data app orb].
  destruct H as [Hb|[l [Hin [Hen Hl]]]].
  - now rewrite Hb.
  - assert (E : existsb (fun l0 => enabled l0 && truthy (dict_get d l0)) locales = true).
    { apply existsb_exists. exists l. split; [exact Hin|]. now rewrite Hen, Hl. }
    rewrite E. now rewrite andb_false_r.
Qed.

(** X16.  For a truthy mapping-backed instance with no truthy value for an
    enabled locale of the widget, [decompress] puts what the instance
    resolves to for the first enabled locale into the position of one
    enabled locale of the widget, and leaves the other positions as they
    are stored. *)
Theorem decompress_fallback (d : dict) (st : Translation.lang) (e0 : string)
  (es : list string) :
  enabled_locales = e0 :: es ->
  LazyI18nString.__bool__ {| LazyI18nString.data := CVal (PDict d) |} = true ->
  (forall l, In l locales -> enabled l = true -> truthy (dict_get d l) = false) ->
  (exists l, In l locales /\ enabled l = true) ->
  exists run i l text data,
    decompress (LazyI18nString.Instance {| LazyI18nString.data := CVal (PDict d) |})
    = Some run
    /\ run st = (Forms.Done data, st)
    /\ nth_error locales i = Some l /\ enabled l = true
    /\ LazyI18nString.localize LANGUAGE_CODE
         {| LazyI18nString.data := CVal (PDict d) |} e0 = Ok text
    /\ truthy text = true
    /\ Forms.list_set (map (dict_get d) locales) i text = Some data.
Proof.
  intros Hen Hb Hnone Hsome.
  destruct (decompress_loop_pure {| LazyI18nString.data := CVal (PDict d) |}
              (dict_get d) locales (fun l st0 _ => dataline_mapping d l st0)
              0 None false [] st) as [fe [Hrun [_ [Hfe [_ Hidx]]]]].
  assert (E : existsb (fun l0 => enabled l0 && truthy (dict_get d l0)) locales = false).
  { destruct (existsb _ locales) eqn:E; [|reflexivity].
    apply existsb_exists in E. destruct E as [l [Hin Hl]].
    apply andb_true_iff in Hl. destruct Hl as [Hl1 Hl2].
    now rewrite (Hnone l Hin Hl1) in Hl2. }
  destruct fe as [i|]; [|now elim (Hfe Hsome)].
  destruct (Hidx i eq_refl) as [Hfalse|[_ [l [Hnth Hl]]]]; [discriminate|].
  rewrite Nat.sub_0_r in Hnth.
  destruct (localize_truthy_as_bool LANGUAGE_CODE d e0) as [text [Htext Htruthy]].
  assert (Hi : i < List.length (map (dict_get d) locales)).
  { rewrite length_map. apply nth_error_Some. now rewrite Hnth. }
  destruct (list_set_in_range _ i text Hi) as [data Hdata].
  eexists. exists i, l, text, data.
  split; [reflexivity|]. cbv beta. rewrite Hrun.
  cbn [LazyI18nString.data app orb]. rewrite E, Hb. cbn [negb andb].
  rewrite Hen, Htext. unfold Forms.store. rewrite Hdata.
  repeat split; try assumption; congruence.
Qed.

(** X17.  For a truthy mapping-backed instance, when no locale of the widget
    is enabled, [decompress] raises: [IndexError] when no locale is enabled
    at all, [TypeError] otherwise. *)
Theorem decompress_nothing_enabled (d : dict) (st : Translation.lang) :
  LazyI18nString.__bool__ {| LazyI18nString.data := CVal (PDict d) |} = true ->
  (forall l, In l locales -> enabled l = false) ->
  exists run,
    decompress (LazyI18nString.Instance {| LazyI18nString.data := CVal (PDict d) |})
    = Some run
    /\ run st = (Forms.Fail (match enabled_locales with
                             | [] => Forms.IndexError
                             | _ :: _ => Forms.Builtin TypeError
                             end), st).
Proof.
  intros Hb Hnone. eexists. split; [reflexivity|]. cbv beta.
  destruct (decompress_loop_pure {| LazyI18nString.data := CVal (PDict d) |}
              (dict_get d) locales (fun l st0 _ => dataline_mapping d l st0)
              0 None false [] st) as [fe [Hrun [_ [_ [Hfe _]]]]].
  rewrite (Hfe Hnone) in Hrun. rewrite Hrun. cbn [LazyI18nString.data app orb].
  assert (E : existsb (fun l0 => enabled l0 && truthy (dict_get d l0)) locales = false).
  { destruct (existsb _ locales) eqn:E; [|reflexivity].
    apply existsb_exists in E. destruct E as [l [Hin Hl]].
    now rewrite (Hnone l Hin) in Hl. }
  rewrite E, Hb. cbn [negb andb].
  destruct enabled_locales as [|e0 es]; [reflexivity|].
  destruct (localize_truthy_as_bool LANGUAGE_CODE d e0) as [text [Htext _]].
  now rewrite Htext.
Qed.

End WidgetProperties.

Section FormFieldProperties.

Variable json_loads : string -> pyresult pyval.

Lemma compress_loop_fail (locales : list string) (data_list : list pyval) :
  forall i data e,
    Forms.compress_loop locales i data_list data = Forms.Fail e ->
    e = Forms.IndexError /\ List.length locales < i + List.length data_list.
Proof.
  induction data_list as [|v vs IH]; intros i data e; simpl; [discriminate|].
  destruct (nth_error locales i) as [l|] eqn:E.
  - intros H. apply IH in H. destruct H as [He Hlen]. split; [exact He|lia].
  - intros [= <-]. apply nth_error_None in E. split; [reflexivity|lia].
Qed.

Lemma compress_loop_done (locales : list string) (data_list : list pyval) :
  forall i data data',
    Forms.compress_loop locales i data_list data = Forms.Done data' ->
    i + List.length data_list <= List.length locales \/ data_list = [].
Proof.
  induction data_list as [|v vs IH]; intros i data data'; simpl; [now right|].
  destruct (nth_error locales i) as [l|] eqn:E; [|discriminate].
  intros H. left. apply IH in H.
  assert (Hi : i < List.length locales) by (apply nth_error_Some; congruence).
  destruct H as [H| ->]; simpl; lia.
Qed.

(** X18.  [compress] raises [IndexError] exactly when it is given more
    values than the field has locales; it raises nothing else. *)
Theorem compress_index_error (locales : list string) (data_list : list pyval) :
  (Forms.compress json_loads locales data_list = Some (Forms.Fail Forms.IndexError)
   <-> List.length locales < List.length data_list)
  /\ (forall e, Forms.compress json_loads locales data_list = Some (Forms.Fail e) ->
                e = Forms.IndexError).
Proof.
  unfold Forms.compress.
  destruct (Forms.compress_loop locales 0 data_list []) as [data|e] eqn:E.
  - assert (Hinit : exists i, LazyI18nString.__init__ json_loads (PDict data) = Some (Ok i)).
    { now eexists. }
    destruct Hinit as [i Hi]. rewrite Hi. split; [split|]; try discriminate.
    intros Hlen. apply compress_loop_done in E. destruct E as [E| ->]; simpl in *; lia.
  - apply compress_loop_fail in E. destruct E as [-> Hlen]. split; [split|].
    + intros _. exact Hlen.
    + reflexivity.
    + now intros e [= <-].
Qed.

Lemma compress_loop_combine (pre suf : list string) (data_list : list pyval) (data : dict) :
  NoDup (pre ++ suf) ->
  dict_keys data = pre ->
  List.length data_list <= List.length suf ->
  Forms.compress_loop (pre ++ suf) (List.length pre) data_list data
  = Forms.Done (data ++ combine suf data_list).
Proof.
  revert pre suf data. induction data_list as [|v vs IH]; intros pre suf data Hnd Hk Hlen.
  - simpl. destruct suf; simpl; now rewrite app_nil_r.
  - destruct suf as [|l suf]; [simpl in Hlen; lia|].
    cbn [Forms.compress_loop].
    rewrite nth_error_app2, Nat.sub_diag by lia. cbn [nth_error].
    assert (Hl : ~ In l (dict_keys data)).
    { rewrite Hk. apply NoDup_remove_2 in Hnd. intros H. apply Hnd.
      apply in_or_app. now left. }
    rewrite setitem_notin by exact Hl.
    replace (S (List.length pre)) with (List.length (pre ++ [l]))
      by (rewrite length_app; simpl; lia).
    replace (pre ++ l :: suf) with ((pre ++ [l]) ++ suf) in * by now rewrite <- app_assoc.
    rewrite IH.
    + now rewrite <- app_assoc.
    + exact Hnd.
    + unfold dict_keys in *. rewrite map_app, Hk. reflexivity.
    + simpl in Hlen. lia.
Qed.

Lemma combine_keys (locales : list string) (data_list : list pyval) :
  List.length data_list <= List.length locales ->
  dict_keys (combine locales data_list) = firstn (List.length data_list) locales.
Proof.
  revert data_list. induction locales as [|l locales IH]; intros [|v vs] Hlen;
    simpl in *; try reflexivity; try lia.
  f_equal. apply IH. lia.
Qed.

Lemma combine_values (locales : list string) (data_list : list pyval) :
  List.length data_list <= List.length locales ->
  dict_values (combine locales data_list) = data_list.
Proof.
  revert data_list. induction locales as [|l ls IH]; intros [|v vs] Hlen;
    simpl in *; try reflexivity; try lia.
  f_equal. apply IH. lia.
Qed.

Lemma firstn_subset (n : nat) (l : list string) (x : string) :
  In x (firstn n l) -> In x l.
Proof.
  revert n. induction l as [|y l IH]; intros [|n]; simpl; try contradiction.
  intros [H|H]; [now left|right; now apply (IH n)].
Qed.

Lemma existsb_enabled_lines (locales : list string) (get : string -> pyval)
  (keys : list string) :
  (forall l, In l keys -> Forms.contains locales l = true) ->
  existsb (fun l => Forms.contains locales l && truthy (get l)) keys
  = existsb truthy (map get keys).
Proof.
  induction keys as [|k keys IH]; intros H; simpl; [reflexivity|].
  rewrite (H k (or_introl eq_refl)), IH; [reflexivity|].
  intros l Hl. apply H. now right.
Qed.

Lemma firstn_nodup (n : nat) (l : list string) : NoDup l -> NoDup (firstn n l).
Proof.
  revert n. induction l as [|x l IH]; intros [|n] H; simpl; try constructor.
  - inversion H; subst. intros Hin. apply firstn_subset in Hin. contradiction.
  - inversion H; subst. now apply IH.
Qed.

Lemma compress_done (locales : list string) (data_list : list pyval) :
  NoDup locales ->
  List.length data_list <= List.length locales ->
  Forms.compress json_loads locales data_list
  = Some (Forms.Done {| LazyI18nString.data := CVal (PDict (combine locales data_list)) |}).
Proof.
  intros Hnd Hlen. unfold Forms.compress.
  assert (H := compress_loop_combine [] locales data_list [] Hnd eq_refl Hlen).
  cbn [app List.length] in H. rewrite H.
  rewrite init_mapping; [reflexivity|].
  rewrite combine_keys by exact Hlen. now apply firstn_nodup.
Qed.

(** X19.  [compress] pairs the values with the locales of the field in their
    order: the instance it returns maps the i-th locale to the i-th value,
    and has no other key. *)
Theorem compress_pairs_locales (locales : list string) (data_list : list pyval) :
  NoDup locales ->
  List.length data_list <= List.length locales ->
  exists d,
    Forms.compress json_loads locales data_list
    = Some (Forms.Done {| LazyI18nString.data := CVal (PDict d) |})
    /\ dict_keys d = firstn (List.length data_list) locales
    /\ dict_values d = data_list
    /\ forall i l, nth_error locales i = Some l -> i < List.length data_list ->
                   dict_lookup d l = nth_error data_list i.
Proof.
  intros Hnd Hlen. exists (combine locales data_list).
  split; [now apply compress_done|]. split; [now apply combine_keys|]. split.
  - now apply combine_values.
  - intros i l Hnth Hi.
    destruct (nth_error data_list i) as [v|] eqn:Hv;
      [|apply nth_error_None in Hv; lia].
    apply lookup_In.
    + rewrite combine_keys by exact Hlen. now apply firstn_nodup.
    + clear Hnd Hlen Hi. revert i data_list Hnth Hv.
      induction locales as [|l0 ls IH]; intros [|i] [|w ws] Hnth Hv;
        simpl in *; try discriminate.
      * injection Hnth as <-. injection Hv as <-. now left.
      * right. now apply (IH i ws).
Qed.

Lemma combine_get (locales : list string) (data_list : list pyval) :
  NoDup locales ->
  List.length data_list = List.length locales ->
  map (dict_get (combine locales data_list)) locales = data_list.
Proof.
  revert data_list. induction locales as [|l ls IH]; intros [|v vs] Hnd Hlen;
    simpl in *; try reflexivity; try lia.
  inversion Hnd as [|? ? Hnotin Hnd']; subst.
  unfold dict_get at 1. cbn [dict_lookup]. rewrite String.eqb_refl. f_equal.
  rewrite <- (IH vs Hnd') at 2 by lia.
  apply map_ext_in. intros k Hk. unfold dict_get. cbn [dict_lookup].
  destruct (l =? k) eqn:E; [|reflexivity].
  apply String.eqb_eq in E. subst. contradiction.
Qed.

(** X20.  With every locale of the widget enabled, [decompress] undoes
    [compress]: the instance made from one value for each locale gives these
    values back. *)
Theorem decompress_compress (LANGUAGE_CODE : string)
  (gettext : Translation.lang -> string -> pyresult string)
  (locales : list string) (data_list : list pyval) (st : Translation.lang) :
  NoDup locales ->
  List.length data_list = List.length locales ->
  exists compressed run,
    Forms.compress json_loads locales data_list = Some (Forms.Done compressed)
    /\ Forms.decompress json_loads LANGUAGE_CODE gettext locales locales
         (LazyI18nString.Instance compressed) = Some run
    /\ run st = (Forms.Done data_list, st).
Proof.
  intros Hnd Hlen. eexists. eexists.
  split; [apply compress_done; [exact Hnd|lia]|]. split; [reflexivity|]. cbv beta.
  set (d := combine locales data_list).
  destruct (decompress_loop_pure gettext locales {| LazyI18nString.data := CVal (PDict d) |}
              (dict_get d) locales (fun l st0 _ => dataline_mapping gettext d l st0)
              0 None false [] st) as [fe [Hrun _]].
  rewrite Hrun. cbn [LazyI18nString.data app orb].
  assert (Hget : map (dict_get d) locales = data_list) by now apply combine_get.
  assert (Hany : existsb (fun l => Forms.contains locales l && truthy (dict_get d l)) locales
                 = existsb truthy data_list).
  { rewrite <- Hget. apply existsb_enabled_lines. intros l Hl.
    unfold Forms.contains. now apply existsb_eqb_In. }
  assert (Hbool : LazyI18nString.__bool__ {| LazyI18nString.data := CVal (PDict d) |}
                  = existsb truthy data_list).
  { unfold LazyI18nString.__bool__. cbn [LazyI18nString.data content_truthy truthy].
    assert (Hval : dict_values d = data_list).
    { unfold d. apply combine_values. lia. }
    rewrite <- Hval. now destruct d. }
  rewrite Hany, Hbool, Hget.
  now destruct (existsb truthy data_list).
Qed.

End FormFieldProperties.

Section DeferredWidget.

Variable json_loads : string -> pyresult pyval.
Variable LANGUAGE_CODE : string.
Variable gettext : Translation.lang -> string -> pyresult string.
Variable locales : list string.
Variable enabled_locales : list string.

Local Abbreviation rendered p :=
  (fun l : string =>
     match gettext (Some l) (LazyGettextProxy.lazygettext p) with
     | Ok s => PStr s
     | Raise _ => PNone
     end).

Lemma dataline_proxy (p : LazyGettextProxy.t) (l : string) (st : Translation.lang) :
  (exists s, gettext (Some l) (LazyGettextProxy.lazygettext p) = Ok s) ->
  Forms.dataline gettext {| LazyI18nString.data := CProxy p |} l st
  = (Ok (rendered p l), st).
Proof.
  intros [s Hs]. unfold Forms.dataline, Translation.bind.
  cbn [LazyI18nString.data LazyGettextProxy.__contains__].
  now rewrite getitem_run, Hs.
Qed.

(** X21.  For a proxy-backed instance whose renderings succeed and are not
    all empty on the enabled locales of the widget, [decompress] returns the
    rendering for each locale of the widget and leaves the active locale as
    it was. *)
Theorem decompress_deferred (p : LazyGettextProxy.t) (st : Translation.lang) :
  (forall l, In l locales ->
             exists s, gettext (Some l) (LazyGettextProxy.lazygettext p) = Ok s) ->
  (exists l s, In l locales /\ Forms.contains enabled_locales l = true
               /\ gettext (Some l) (LazyGettextProxy.lazygettext p) = Ok s /\ s <> "") ->
  exists run,
    Forms.decompress json_loads LANGUAGE_CODE gettext locales enabled_locales
      (LazyI18nString.Instance {| LazyI18nString.data := CProxy p |}) = Some run
    /\ run st = (Forms.Done (map (rendered p) locales), st).
Proof.
  intros Hok [l [s [Hin [Hen [Hs Hne]]]]]. eexists. split; [reflexivity|]. cbv beta.
  destruct (decompress_loop_pure gettext enabled_locales
              {| LazyI18nString.data := CProxy p |} (rendered p) locales
              (fun l0 st0 H => dataline_proxy p l0 st0 (Hok l0 H))
              0 None false [] st) as [fe [Hrun _]].
  rewrite Hrun. cbn [LazyI18nString.data app orb].
  assert (E : existsb (fun l0 => Forms.contains enabled_locales l0 && truthy (rendered p l0))
                locales = true).
  { apply existsb_exists. exists l. split; [exact Hin|]. rewrite Hen, Hs. simpl.
    apply negb_true_iff. now apply String.eqb_neq. }
  rewrite E. now rewrite andb_false_r.
Qed.

(** X22.  For a proxy-backed instance whose renderings are empty on every
    enabled locale of the widget, [decompress] raises [AttributeError]: it
    asks the instance to resolve the first enabled locale. *)
Theorem decompress_deferred_unfilled (p : LazyGettextProxy.t) (st : Translation.lang)
  (e0 : string) (es : list string) :
  enabled_locales = e0 :: es ->
  (forall l, In l locales ->
             exists s, gettext (Some l) (LazyGettextProxy.lazygettext p) = Ok s) ->
  (forall l, In l locales -> Forms.contains enabled_locales l = true ->
             gettext (Some l) (LazyGettextProxy.lazygettext p) = Ok "") ->
  exists run,
    Forms.decompress json_loads LANGUAGE_CODE gettext locales enabled_locales
      (LazyI18nString.Instance {| LazyI18nString.data := CProxy p |}) = Some run
    /\ run st = (Forms.Fail (Forms.Builtin AttributeError), st).
Proof.
  intros Hen Hok Hempty. eexists. split; [reflexivity|]. cbv beta.
  destruct (decompress_loop_pure gettext enabled_locales
              {| LazyI18nString.data := CProxy p |} (rendered p) locales
              (fun l0 st0 H => dataline_proxy p l0 st0 (Hok l0 H))
              0 None false [] st) as [fe [Hrun _]].
  rewrite Hrun. cbn [LazyI18nString.data app orb].
  assert (E : existsb (fun l0 => Forms.contains enabled_locales l0 && truthy (rendered p l0))
                locales = false).
  { destruct (existsb _ locales) eqn:E; [|reflexivity].
    apply existsb_exists in E. destruct E as [l [Hin Hl]].
    apply andb_true_iff in Hl. destruct Hl as [Hl1 Hl2].
    rewrite (Hempty l Hin Hl1) in Hl2. discriminate. }
  rewrite E, Hen. reflexivity.
Qed.

End DeferredWidget.

(** ** Equality is symmetric *)

Lemma bool_eq_iff (a b : bool) : (a = true <-> b = true) -> a = b.
Proof.
  destruct a, b; intros [H1 H2]; try reflexivity.
  - symmetry. now apply H1.
  - now apply H2.
Qed.

Lemma py_eq_list_sym (xs ys : list pyval) :
  Forall (fun x => forall b, wf_val x -> wf_val b -> py_eq x b = py_eq b x) xs ->
  Forall wf_val xs -> Forall wf_val ys ->
  py_eq (PList xs) (PList ys) = py_eq (PList ys) (PList xs).
Proof.
  intros IH. revert ys. simpl.
  induction IH as [|x xs Hx _ IHxs]; intros [|y ys] Hwx Hwy; try reflexivity.
  inversion Hwx; subst. inversion Hwy; subst.
  rewrite (Hx y) by assumption. f_equal. now apply IHxs.
Qed.

Lemma py_eq_sym (a : pyval) :
  forall b, wf_val a -> wf_val b -> py_eq a b = py_eq b a.
Proof.
  induction a as [| x | n | s | xs IH | items IH] using pyval_induction;
    intros b Ha Hb.
  - now destruct b.
  - destruct b as [| y | m | | |]; try reflexivity.
    + simpl. now destruct x, y.
    + simpl. apply Z.eqb_sym.
  - destruct b as [| y | m | | |]; try reflexivity.
    + simpl. apply Z.eqb_sym.
    + simpl. apply Z.eqb_sym.
  - destruct b; try reflexivity. simpl. apply String.eqb_sym.
  - destruct b as [| | | | ys |]; try reflexivity.
    apply py_eq_list_sym; [exact IH| |]; now apply wf_list_unfold.
  - destruct b as [| | | | | items2]; try reflexivity.
    apply wf_dict_unfold in Ha, Hb. destruct Ha as [Hnd1 Hw1]. destruct Hb as [Hnd2 Hw2].
    rewrite Forall_forall in IH, Hw1, Hw2.
    apply bool_eq_iff.
    rewrite !py_eq_dict_same_mapping by assumption.
    assert (Hval : forall k v w,
               dict_lookup items k = Some v -> dict_lookup items2 k = Some w ->
               py_eq v w = py_eq w v).
    { intros k v w Hv Hw. apply lookup_Some_In in Hv, Hw.
      apply (IH (k, v) Hv); [apply (Hw1 (k, v) Hv)|apply (Hw2 (k, w) Hw)]. }
    split; intros Hsame k; specialize (Hsame k); unfold Spec.same_value in *;
      destruct (dict_lookup items k) as [v|] eqn:E1,
               (dict_lookup items2 k) as [w|] eqn:E2; try contradiction; trivial.
    + now rewrite <- (Hval k v w E1 E2).
    + now rewrite (Hval k v w E1 E2).
Qed.

(** X23.  Equality of mapping-backed instances is symmetric. *)
Theorem eq_symmetric (d1 d2 : dict) :
  wf_dict d1 -> wf_dict d2 ->
  LazyI18nString.__eq__ {| LazyI18nString.data := CVal (PDict d1) |}
    (LazyI18nString.Instance {| LazyI18nString.data := CVal (PDict d2) |})
  = LazyI18nString.__eq__ {| LazyI18nString.data := CVal (PDict d2) |}
      (LazyI18nString.Instance {| LazyI18nString.data := CVal (PDict d1) |}).
Proof.
  intros H1 H2. unfold LazyI18nString.__eq__, LazyI18nString.hasattr.
  cbn [LazyI18nString.is_None LazyI18nString.getattr LazyI18nString.equals
       LazyI18nString.data content_eq].
  rewrite String.eqb_refl. cbn [LazyI18nString.equals content_eq].
  f_equal. f_equal. now apply py_eq_sym.
Qed.

(** ** The further properties on the sample values *)

Ltac solve_greeting_values :=
  let v := fresh "v" in let H := fresh "H" in
  intros v H; simpl in H; destruct H as [<-|[<-|[<-|[]]]]; try reflexivity;
  try (eexists; reflexivity).

Lemma map_keeps_keys_witness :
  exists d',
    LazyI18nString.map Example.twice
      {| LazyI18nString.data := CVal (PDict Example.greeting) |}
    = Ok {| LazyI18nString.data := CVal (PDict d') |}
    /\ dict_keys d' = dict_keys Example.greeting
    /\ forall k, dict_lookup d' k
                 = option_map Example.twice_value (dict_lookup Example.greeting k).
Proof.
  apply (map_keeps_keys Example.twice Example.twice_value Example.greeting).
  - unfold Example.greeting. solve_nodup.
  - solve_greeting_values.
Defined.

Lemma map_first_failure_witness :
  LazyI18nString.map Example.twice
    {| LazyI18nString.data :=
         CVal (PDict ([("fr", PStr "Bonjour")] ++ ("n", PInt 3) :: [("de", PStr "Hallo")])) |}
  = Raise TypeError.
Proof.
  apply (map_first_failure Example.twice [("fr", PStr "Bonjour")] [("de", PStr "Hallo")]
           "n" (PInt 3) TypeError).
  - intros w H. simpl in H. destruct H as [<-|[]]. eexists. reflexivity.
  - reflexivity.
Defined.

Lemma map_compose_witness :
  exists mapped,
    LazyI18nString.map Example.twice
      {| LazyI18nString.data := CVal (PDict Example.greeting) |} = Ok mapped
    /\ LazyI18nString.map Example.twice mapped
       = LazyI18nString.map (fun v => Example.twice (Example.twice_value v))
           {| LazyI18nString.data := CVal (PDict Example.greeting) |}.
Proof.
  apply (map_compose Example.twice Example.twice Example.twice_value Example.greeting).
  - unfold Example.greeting. solve_nodup.
  - solve_greeting_values.
Defined.

Lemma map_then_localize_witness :
  exists mapped v,
    LazyI18nString.map Example.twice
      {| LazyI18nString.data := CVal (PDict Example.greeting) |} = Ok mapped
    /\ LazyI18nString.localize "en"
         {| LazyI18nString.data := CVal (PDict Example.greeting) |} "de-AT" = Ok v
    /\ LazyI18nString.localize "en" mapped "de-AT" = Ok (Example.twice_value v).
Proof.
  apply (map_then_localize Example.twice Example.twice_value "en" Example.greeting "de-AT").
  - unfold Example.greeting. solve_nodup.
  - solve_greeting_values.
  - intros v. destruct v as [| | | s | |]; try reflexivity. now destruct s.
  - reflexivity.
Defined.

Lemma localize_ignores_falsy_entries_witness :
  LazyI18nString.localize "en"
    {| LazyI18nString.data := CVal (PDict (I18nField.truthy_items Example.greeting)) |} "en"
  = LazyI18nString.localize "en"
      {| LazyI18nString.data := CVal (PDict Example.greeting) |} "en".
Proof.
  apply (localize_ignores_falsy_entries "en" Example.greeting "en").
  unfold Example.greeting. solve_nodup.
Defined.

Lemma decompress_length_witness :
  List.length [PNone; PStr "Bonjour"; PStr "Bonjour"] = List.length ["en"; "de"; "fr"].
Proof.
  apply (decompress_length JsonRef.json_loads "en" Example.gettext ["en"; "de"; "fr"]
           ["en"; "de"]
           (LazyI18nString.Instance
              {| LazyI18nString.data := CVal (PDict [("fr", PStr "Bonjour")]) |})
           (fun st => (Forms.Done [PNone; PStr "Bonjour"; PStr "Bonjour"], st))
           None None [PNone; PStr "Bonjour"; PStr "Bonjour"]).
  - reflexivity.
  - reflexivity.
Defined.

Lemma decompress_values_witness :
  exists run,
    Forms.decompress JsonRef.json_loads "en" Example.gettext ["en"; "de"; "fr"] ["en"; "de"]
      (LazyI18nString.Instance {| LazyI18nString.data := CVal (PDict Example.greeting) |})
    = Some run
    /\ run None = (Forms.Done (map (dict_get Example.greeting) ["en"; "de"; "fr"]), None).
Proof.
  apply (decompress_values JsonRef.json_loads "en" Example.gettext ["en"; "de"; "fr"]
           ["en"; "de"] Example.greeting None).
  right. exists "de". split; [simpl; tauto|]. split; reflexivity.
Defined.

Lemma decompress_fallback_witness :
  exists run i l text data,
    Forms.decompress JsonRef.json_loads "en" Example.gettext ["en"; "de"; "fr"] ["en"; "de"]
      (LazyI18nString.Instance
         {| LazyI18nString.data := CVal (PDict [("fr", PStr "Bonjour")]) |})
    = Some run
    /\ run None = (Forms.Done data, None)
    /\ nth_error ["en"; "de"; "fr"] i = Some l
    /\ Forms.contains ["en"; "de"] l = true
    /\ LazyI18nString.localize "en"
         {| LazyI18nString.data := CVal (PDict [("fr", PStr "Bonjour")]) |} "en" = Ok text
    /\ truthy text = true
    /\ Forms.list_set (map (dict_get [("fr", PStr "Bonjour")]) ["en"; "de"; "fr"]) i text
       = Some data.
Proof.
  apply (decompress_fallback JsonRef.json_loads "en" Example.gettext ["en"; "de"; "fr"]
           ["en"; "de"] [("fr", PStr "Bonjour")] None "en" ["de"]).
  - reflexivity.
  - reflexivity.
  - intros l H Hen. simpl in H. destruct H as [<-|[<-|[<-|[]]]]; try reflexivity.
    vm_compute in Hen. discriminate Hen.
  - exists "en". split; [now left|reflexivity].
Defined.

Lemma decompress_nothing_enabled_witness :
  exists run,
    Forms.decompress JsonRef.json_loads "en" Example.gettext ["en"; "de"] ["it"]
      (LazyI18nString.Instance {| LazyI18nString.data := CVal (PDict Example.greeting) |})
    = Some run
    /\ run None = (Forms.Fail (Forms.Builtin TypeError), None).
Proof.
  apply (decompress_nothing_enabled JsonRef.json_loads "en" Example.gettext ["en"; "de"]
           ["it"] Example.greeting None).
  - reflexivity.
  - intros l H. simpl in H. destruct H as [<-|[<-|[]]]; reflexivity.
Defined.

Lemma compress_pairs_locales_witness :
  exists d,
    Forms.compress JsonRef.json_loads ["en"; "de"; "fr"] [PStr "Hello"; PStr ""]
    = Some (Forms.Done {| LazyI18nString.data := CVal (PDict d) |})
    /\ dict_keys d = firstn (List.length [PStr "Hello"; PStr ""]) ["en"; "de"; "fr"]
    /\ dict_values d = [PStr "Hello"; PStr ""]
    /\ forall i l, nth_error ["en"; "de"; "fr"] i = Some l ->
                   i < List.length [PStr "Hello"; PStr ""] ->
                   dict_lookup d l = nth_error [PStr "Hello"; PStr ""] i.
Proof.
  apply (compress_pairs_locales JsonRef.json_loads ["en"; "de"; "fr"]
           [PStr "Hello"; PStr ""]).
  - solve_nodup.
  - simpl. lia.
Defined.

Lemma decompress_compress_witness :
  exists compressed run,
    Forms.compress JsonRef.json_loads ["en"; "de"] [PStr ""; PStr "Hallo"]
    = Some (Forms.Done compressed)
    /\ Forms.decompress JsonRef.json_loads "en" Example.gettext ["en"; "de"] ["en"; "de"]
         (LazyI18nString.Instance compressed) = Some run
    /\ run (Some "fr") = (Forms.Done [PStr ""; PStr "Hallo"], Some "fr").
Proof.
  apply (decompress_compress JsonRef.json_loads "en" Example.gettext ["en"; "de"]
           [PStr ""; PStr "Hallo"] (Some "fr")).
  - solve_nodup.
  - reflexivity.
Defined.

Lemma decompress_deferred_witness :
  exists run,
    Forms.decompress JsonRef.json_loads "en" Example.gettext ["en"; "de"; "de-AT"]
      ["de"; "de-AT"]
      (LazyI18nString.Instance {| LazyI18nString.data := CProxy Example.hello |})
    = Some run
    /\ run (Some "fr")
       = (Forms.Done
            (map (fun l : string =>
                    match Example.gettext (Some l)
                            (LazyGettextProxy.lazygettext Example.hello) with
                    | Ok s => PStr s
                    | Raise _ => PNone
                    end) ["en"; "de"; "de-AT"]), Some "fr").
Proof.
  apply (decompress_deferred JsonRef.json_loads "en" Example.gettext ["en"; "de"; "de-AT"]
           ["de"; "de-AT"] Example.hello (Some "fr")).
  - intros l H. simpl in H. destruct H as [<-|[<-|[<-|[]]]]; eexists; reflexivity.
  - exists "de", "Hallo". split; [simpl; tauto|]. split; [reflexivity|].
    split; [reflexivity|discriminate].
Defined.

Lemma decompress_deferred_unfilled_witness :
  exists run,
    Forms.decompress JsonRef.json_loads "en" Example.gettext ["en"; "de"; "de-AT"]
      ["de-AT"]
      (LazyI18nString.Instance {| LazyI18nString.data := CProxy Example.hello |})
    = Some run
    /\ run (Some "fr") = (Forms.Fail (Forms.Builtin AttributeError), Some "fr").
Proof.
  apply (decompress_deferred_unfilled JsonRef.json_loads "en" Example.gettext
           ["en"; "de"; "de-AT"] ["de-AT"] Example.hello (Some "fr") "de-AT" []).
  - reflexivity.
  - intros l H. simpl in H. destruct H as [<-|[<-|[<-|[]]]]; eexists; reflexivity.
  - intros l H Hen. simpl in H. destruct H as [<-|[<-|[<-|[]]]];
      try reflexivity; vm_compute in Hen; discriminate Hen.
Defined.

Lemma eq_symmetric_witness :
  LazyI18nString.__eq__
    {| LazyI18nString.data := CVal (PDict [("de", PStr "Hallo"); ("en", PStr "Hello")]) |}
    (LazyI18nString.Instance
       {| LazyI18nString.data := CVal (PDict [("en", PStr "Hello"); ("de", PStr "Hallo")]) |})
  = LazyI18nString.__eq__
      {| LazyI18nString.data := CVal (PDict [("en", PStr "Hello"); ("de", PStr "Hallo")]) |}
      (LazyI18nString.Instance
         {| LazyI18nString.data :=
              CVal (PDict [("de", PStr "Hallo"); ("en", PStr "Hello")]) |}).
Proof.
  apply (eq_symmetric [("de", PStr "Hallo"); ("en", PStr "Hello")]
           [("en", PStr "Hello"); ("de", PStr "Hallo")]).
  - solve_wf_dict.
  - solve_wf_dict.
Defined.
